(** * TxExecutor: the transaction execution queue of src/api/TxExecutor.ts

    A shallow embedding of [TxExecutor] (constructor, [makeRequest],
    [maybeUpdateNonce], [checkBalance], [execute]) together with the
    queue discipline of the [fastq] worker it is built on.

    The methods are written as programs over the calls they make ([Prog]);
    [run] executes a program against the answers of the collaborators
    ([Env]: [EthConnection], [PopupManager], [NotificationManager],
    [EventLogger], [localStorage], [Date.now]) and records everything the
    executor does to the outside in a trace of [Event]s; [step] interleaves
    callers that enqueue requests with the invocations of the worker.

    JavaScript numbers that hold nonces and millisecond timestamps are
    modelled by [Z] (exact in the safe-integer range), the account balance
    by [Q]. *)

From Stdlib Require Import ZArith QArith String List Bool Lia Sorted.
Import ListNotations.

Local Open Scope Z_scope.
Local Open Scope string_scope.

(** ** Values exchanged with the collaborators *)

(** A thrown JavaScript [Error]: its [message] and the optional [body]
    (an array of character codes) that [execute] looks for when logging. *)
Record JsError := mkError {
  message : string;
  body : option (list Z)
}.

(** [new Error(msg)] *)
Definition Error (msg : string) : JsError :=
  {| message := msg; body := None |}.

(** [providers.TransactionResponse]: only [hash] is read. *)
Record TransactionResponse := {
  hash : string
}.

(** [providers.TransactionReceipt]: [status] is optional in ethers. *)
Record TransactionReceipt := {
  transactionHash : string;
  status : option Z
}.

(** [providers.TransactionRequest], the override object. *)
Record TransactionRequest := {
  to : option string;
  from : option string;
  nonce : option Z;
  gasLimit : option Z;
  gasPrice : option Z;
  data : option string;
  value : option Z;
  chainId : option Z
}.

Definition emptyTransactionRequest : TransactionRequest :=
  {| to := None; from := None; nonce := None; gasLimit := None;
     gasPrice := None; data := None; value := None; chainId := None |}.

(** The object spread [{...overrides, nonce: n}]. *)
Definition spread_with_nonce (overrides : TransactionRequest) (n : Z)
  : TransactionRequest :=
  {| to := to overrides; from := from overrides; nonce := Some n;
     gasLimit := gasLimit overrides; gasPrice := gasPrice overrides;
     data := data overrides; value := value overrides;
     chainId := chainId overrides |}.

(** ** Numbers

    [this.nonce] is a JavaScript number, an IEEE 754 double.  The values it
    takes are integers, modelled by [Z]; an addition yields the double
    nearest to the exact sum, a tie going to the double whose significand is
    even.  Every integer up to [2 ^ 53] is a double; beyond, the doubles are
    the multiples of a power of two, [ulp] below. *)

(** [Number.MAX_SAFE_INTEGER], which is [2 ^ 53 - 1]. *)
Definition Number_MAX_SAFE_INTEGER : Z := 9007199254740991.

(** [Number.isSafeInteger(n)], on integers. *)
Definition safe_integer (n : Z) : Prop :=
  (- Number_MAX_SAFE_INTEGER <= n <= Number_MAX_SAFE_INTEGER)%Z.

(** The double nearest to the integer [z] (of magnitude below
    [2 ^ 1024]). *)
Definition to_double (z : Z) : Z :=
  let a := Z.abs z in
  let e := (Z.log2 a - 52)%Z in
  if (e <=? 0)%Z then z
  else
    let ulp := (2 ^ e)%Z in
    let q := (a / ulp)%Z in
    let r := (a mod ulp)%Z in
    let half := (ulp / 2)%Z in
    let q' :=
      if (r <? half)%Z then q
      else if (half <? r)%Z then (q + 1)%Z
      else if Z.even q then q else (q + 1)%Z in
    (Z.sgn z * (q' * ulp))%Z.

(** [x + y] on integer-valued numbers. *)
Definition number_add (x y : Z) : Z := to_double (x + y).

(** The integer [n] is a number: it is its own rounding. *)
Definition representable (n : Z) : Prop := to_double n = n.

(** How a promise handed out by a collaborator ends. *)
Inductive Promise (X : Type) : Type :=
| Resolves (x : X)
| Rejects (e : JsError)
| NeverSettles.
Arguments Resolves {X} x.
Arguments Rejects {X} e.
Arguments NeverSettles {X}.

(** A promise together with the number of milliseconds it takes to settle,
    for the one call that is raced against a timer. *)
Record Timed (X : Type) := {
  settles_after : Z;
  settlement : Promise X
}.
Arguments settles_after {X} t.
Arguments settlement {X} t.

(** A synchronous call that may throw. *)
Inductive Completion (X : Type) : Type :=
| Returns (x : X)
| Throws (e : JsError).
Arguments Returns {X} x.
Arguments Throws {X} e.

(** Identity of a promise created by [deferred]. *)
Definition PromiseId := nat.
Bind Scope nat_scope with PromiseId.

(** Types and tables that TxExecutor.ts imports and only uses opaquely. *)
Class Imports := {
  (** [EthTxType] of ContractsAPITypes *)
  EthTxType : Type;
  (** the table [TxTypeToEthFunctionName] *)
  TxTypeToEthFunctionName : EthTxType -> string;
  (** ethers' [Contract] *)
  Contract : Type;
  (** an element of [args: any[]] *)
  Arg : Type;
  (** [SnarkLogData] of GlobalTypes and its field [proofVerified] *)
  SnarkLogData : Type;
  proofVerified : SnarkLogData -> bool;
  (** [JSON.stringify] at the two types it is applied to *)
  JSON_stringify_snarkLogs : SnarkLogData -> string;
  JSON_stringify_error : JsError -> string;
  (** [String.fromCharCode.apply(null, codes)] *)
  String_fromCharCode : list Z -> string
}.

Section TxExecutor.

Context `{Imports}.

(** The flat record handed to [EventLogger.logEvent]; a field that the
    code leaves unset is [None]. *)
Record LogEvent := {
  tx_type : EthTxType;
  time_exec_called : Z;
  tx_hash : option string;
  snark_logs : option string;
  snark_local_verified : option bool;
  wait_submit : option Z;
  wait_confirm : option Z;
  error : option string;
  wait_error : option Z;
  parsed_error : option string;
  rpc_endpoint : string;
  user_address : string
}.

(** What a promise is settled with. *)
Inductive Settlement :=
| FulfilResponse (r : TransactionResponse)
| FulfilReceipt (r : TransactionReceipt)
| RejectWith (e : JsError).

(** Everything the executor does that the outside can observe. *)
Inductive Event :=
| Settle (p : PromiseId) (s : Settlement)
    (* the resolve or reject function of deferred [p] was called *)
| BalanceEmpty
    (* NotificationManager.getInstance().balanceEmpty() *)
| ConsoleError (prefix : option string) (e : JsError)
    (* console.error *)
| Forwarded (target calldata : string) (overrides : TransactionRequest)
    (* getPlayerContract().forwardOrThrow(to, data, overrides) *)
| Logged (r : LogEvent).
    (* EventLogger.getInstance().logEvent(r) *)

(** [QueuedTxRequest].  A callback is represented by the event that calling
    it produces. *)
Record QueuedTxRequest := {
  onSubmissionError : JsError -> Event;
  onReceiptError : JsError -> Event;
  onTransactionResponse : TransactionResponse -> Event;
  onTransactionReceipt : TransactionReceipt -> Event;
  type : EthTxType;
  actionId : string;
  contract : Contract;
  args : list Arg;
  overrides : TransactionRequest;
  snarkLogs : option SnarkLogData
}.

(** [PendingTransaction] *)
Record PendingTransaction := {
  submitted : PromiseId;
  confirmed : PromiseId
}.

(** The mutable fields of a [TxExecutor] other than the queue. *)
Record TxExecutor := {
  this_nonce : Z;
  this_lastTransaction : Z
}.

(** The [let] variables of [execute] that the [try] block assigns and the
    [catch] block and the logging code read. *)
Record Locals := {
  time_called : option Z;
  error_ : option JsError;
  time_submitted : option Z;
  time_confirmed : option Z;
  time_errored : option Z;
  tx_hash_ : option string
}.

Definition initial_locals : Locals :=
  {| time_called := None; error_ := None; time_submitted := None;
     time_confirmed := None; time_errored := None; tx_hash_ := None |}.

(** The places where [Date.now()] is called; each is evaluated at most once
    while one request is processed. *)
Inductive Site :=
| AtConstructor      (* this.lastTransaction = Date.now() *)
| AtExecCalled       (* const time_exec_called = Date.now() *)
| AtStaleCheck       (* Date.now() - this.lastTransaction > ... *)
| AtCalled           (* time_called = Date.now() *)
| AtSubmitted        (* time_submitted = Date.now() *)
| AtConfirmed        (* time_confirmed = Date.now() *)
| AtErrored.         (* time_errored = Date.now(), in the catch block *)

(** ** Programs

    A program is a finite tree of calls; [Vis c k] performs the call [c]
    and continues with [k] applied to its answer, [Throw e] is a pending
    exception and [Stuck] is an [await] on a promise that never settles. *)

Inductive Call : Type -> Type :=
| DateNow (s : Site) : Call Z
| ThisNonce : Call Z
| SetThisNonce (n : Z) : Call unit
| ThisLastTransaction : Call Z
| SetThisLastTransaction (t : Z) : Call unit
| GetLocals : Call Locals
| SetLocals (l : Locals) : Call unit
| GetAddress : Call string
| GetRpcEndpoint : Call string
| GetBalance (address : string) : Call (Promise Q)
| GetNonce : Call (Promise Z)
| OpenConfirmationWindowForTransaction
    (txRequest : QueuedTxRequest) (address : string) : Call (Promise unit)
| PopulateTransaction (c : Contract) (methodName : string) (a : list Arg)
    : Call (Promise (string * string))
| ForwardOrThrow (target calldata : string) (overrides : TransactionRequest)
    : Call (Timed TransactionResponse)
| WaitForTransaction (h : string) : Call (Promise TransactionReceipt)
| LocalStorageGetItem (key : string) : Call (option string)
| EventLoggerLogEvent (r : LogEvent) : Call (Completion unit)
| Emit (ev : Event) : Call unit.

Inductive Prog (A : Type) : Type :=
| Ret (a : A)
| Throw (e : JsError)
| Stuck
| Vis {X : Type} (c : Call X) (k : X -> Prog A).
#[global] Arguments Ret {A} a.
#[global] Arguments Throw {A} e.
#[global] Arguments Stuck {A}.
#[global] Arguments Vis {A X} c k.

Fixpoint bind {A B : Type} (m : Prog A) (f : A -> Prog B) : Prog B :=
  match m with
  | Ret a => f a
  | Throw e => Throw e
  | Stuck => Stuck
  | Vis c k => Vis c (fun x => bind (k x) f)
  end.

(** [try { body } catch (e) { handler e }] *)
Fixpoint try_catch {A : Type} (body : Prog A) (handler : JsError -> Prog A)
  : Prog A :=
  match body with
  | Ret a => Ret a
  | Throw e => handler e
  | Stuck => Stuck
  | Vis c k => Vis c (fun x => try_catch (k x) handler)
  end.

Definition call {X : Type} (c : Call X) : Prog X := Vis c Ret.

(** [await p] *)
Definition await {X : Type} (p : Promise X) : Prog X :=
  match p with
  | Resolves x => Ret x
  | Rejects e => Throw e
  | NeverSettles => Stuck
  end.

Definition complete {X : Type} (c : Completion X) : Prog X :=
  match c with
  | Returns x => Ret x
  | Throws e => Throw e
  end.

Notation "x <- m ;; k" := (bind m (fun x => k))
  (at level 61, m at next level, right associativity).
Notation "' pat <- m ;; k" := (bind m (fun x => match x with pat => k end))
  (at level 61, pat pattern, m at next level, right associativity).
Notation "m ;; k" := (bind m (fun _ => k))
  (at level 61, right associativity).

(** Assignment to the local variables of [execute]. *)
Definition assign (f : Locals -> Locals) : Prog unit :=
  l <- call GetLocals ;; call (SetLocals (f l)).

Definition set_time_called (t : Z) (l : Locals) : Locals :=
  {| time_called := Some t; error_ := error_ l;
     time_submitted := time_submitted l; time_confirmed := time_confirmed l;
     time_errored := time_errored l; tx_hash_ := tx_hash_ l |}.

Definition set_error (e : JsError) (l : Locals) : Locals :=
  {| time_called := time_called l; error_ := Some e;
     time_submitted := time_submitted l; time_confirmed := time_confirmed l;
     time_errored := time_errored l; tx_hash_ := tx_hash_ l |}.

Definition set_time_submitted (t : Z) (l : Locals) : Locals :=
  {| time_called := time_called l; error_ := error_ l;
     time_submitted := Some t; time_confirmed := time_confirmed l;
     time_errored := time_errored l; tx_hash_ := tx_hash_ l |}.

Definition set_time_confirmed (t : Z) (l : Locals) : Locals :=
  {| time_called := time_called l; error_ := error_ l;
     time_submitted := time_submitted l; time_confirmed := Some t;
     time_errored := time_errored l; tx_hash_ := tx_hash_ l |}.

Definition set_time_errored (t : option Z) (l : Locals) : Locals :=
  {| time_called := time_called l; error_ := error_ l;
     time_submitted := time_submitted l; time_confirmed := time_confirmed l;
     time_errored := t; tx_hash_ := tx_hash_ l |}.

Definition set_tx_hash (h : string) (l : Locals) : Locals :=
  {| time_called := time_called l; error_ := error_ l;
     time_submitted := time_submitted l; time_confirmed := time_confirmed l;
     time_errored := time_errored l; tx_hash_ := Some h |}.

(** JavaScript truthiness of a [number | undefined]: [undefined] and [0]
    are falsy. *)
Definition truthy (t : option Z) : bool :=
  match t with
  | Some z => negb (z =? 0)%Z
  | None => false
  end.

(** ** Constants of the class *)

Definition TX_SUBMIT_TIMEOUT : Z := 30000.
Definition NONCE_STALE_AFTER_MS : Z := 20000.
Definition MIN_BALANCE_ETH : Q := 2 # 1000.

(** [x < y] on balances. *)
Definition Qlt_bool (x y : Q) : bool := negb (Qle_bool y x).

(** Modelled from the spec: [timeoutAfter] of utils/Utils, which is not
    among the sources.  The spec bounds the wait for the network's
    acknowledgement: if the acknowledgement does not arrive before the
    timeout elapses the wait fails with a timeout error carrying the given
    message; otherwise the promise's own outcome is passed on. *)
Definition timeoutAfter {X : Type} (p : Timed X) (ms : Z) (timeoutMsg : string)
  : Promise X :=
  match settlement p with
  | NeverSettles => Rejects (Error timeoutMsg)
  | s => if (settles_after p <? ms)%Z then s else Rejects (Error timeoutMsg)
  end.

(** ** The methods of [TxExecutor] *)

(** [now - lastTransaction > TxExecutor.NONCE_STALE_AFTER_MS] *)
Definition stale (now lastTransaction : Z) : bool :=
  (now - lastTransaction >? NONCE_STALE_AFTER_MS)%Z.

Definition maybeUpdateNonce : Prog unit :=
  now <- call (DateNow AtStaleCheck) ;;
  last <- call ThisLastTransaction ;;
  if stale now last then
    p <- call GetNonce ;;
    n <- await p ;;
    call (SetThisNonce n)
  else Ret tt.

Definition checkBalance : Prog unit :=
  address <- call GetAddress ;;
  p <- call (GetBalance address) ;;
  balance <- await p ;;
  if Qlt_bool balance MIN_BALANCE_ETH then
    call (Emit BalanceEmpty) ;;
    Throw (Error "xDAI balance too low!")
  else Ret tt.

(** The message of the submission timeout (the stray brace is the
    source's). *)
Definition timeout_message (txRequest : QueuedTxRequest) : string :=
  "tx request " ++ actionId txRequest ++ " failed to submit: timed out}".

(** [confirmed.status !== 1] *)
Definition status_is_not_1 (r : TransactionReceipt) : bool :=
  match status r with
  | Some s => negb (s =? 1)%Z
  | None => true
  end.

(** The body of the [try] block of [execute]. *)
Definition execute_try (txRequest : QueuedTxRequest) : Prog unit :=
  checkBalance ;;
  maybeUpdateNonce ;;
  address <- call GetAddress ;;
  p <- call (OpenConfirmationWindowForTransaction txRequest address) ;;
  await p ;;
  t <- call (DateNow AtCalled) ;;
  assign (set_time_called t) ;;
  let methodName := TxTypeToEthFunctionName (type txRequest) in
  p <- call (PopulateTransaction (contract txRequest) methodName
               (args txRequest)) ;;
  '(target, calldata) <- await p ;;
  n <- call ThisNonce ;;
  f <- call (ForwardOrThrow target calldata
               (spread_with_nonce (overrides txRequest) n)) ;;
  submitted <- await (timeoutAfter f TX_SUBMIT_TIMEOUT
                        (timeout_message txRequest)) ;;
  t <- call (DateNow AtSubmitted) ;;
  assign (set_time_submitted t) ;;
  assign (set_tx_hash (hash submitted)) ;;
  n <- call ThisNonce ;;
  call (SetThisNonce (number_add n 1)) ;;
  call (SetThisLastTransaction t) ;;
  call (Emit (onTransactionResponse txRequest submitted)) ;;
  p <- call (WaitForTransaction (hash submitted)) ;;
  confirmed <- await p ;;
  t <- call (DateNow AtConfirmed) ;;
  assign (set_time_confirmed t) ;;
  call (Emit (onTransactionReceipt txRequest confirmed)) ;;
  if status_is_not_1 confirmed then
    l <- call GetLocals ;;
    assign (set_time_errored (time_confirmed l)) ;;
    assign (set_error (Error "transaction reverted"))
  else Ret tt.

(** The [catch (e)] block of [execute]. *)
Definition execute_catch (txRequest : QueuedTxRequest) (e : JsError)
  : Prog unit :=
  call (Emit (ConsoleError None e)) ;;
  t <- call (DateNow AtErrored) ;;
  assign (set_time_errored (Some t)) ;;
  assign (set_error e) ;;
  l <- call GetLocals ;;
  if negb (truthy (time_submitted l)) then
    call (Emit (onSubmissionError txRequest e))
  else
    call (Emit (onReceiptError txRequest e)).

(** [error.message || JSON.stringify(error)] *)
Definition error_text (e : JsError) : string :=
  if (message e =? "")%string then JSON_stringify_error e else message e.

(** The record assembled after the [try] statement, up to and including
    [parsed_error]. *)
Definition assemble (txRequest : QueuedTxRequest) (exec_called : Z)
  (l : Locals) (endpoint address : string) : LogEvent :=
  let submitted_ok := truthy (time_called l) && truthy (time_submitted l) in
  let errored :=
    match error_ l with Some _ => truthy (time_errored l) | None => false end in
  {| tx_type := type txRequest;
     time_exec_called := exec_called;
     tx_hash := tx_hash_ l;
     snark_logs := option_map JSON_stringify_snarkLogs (snarkLogs txRequest);
     snark_local_verified := option_map proofVerified (snarkLogs txRequest);
     wait_submit :=
       match time_called l, time_submitted l with
       | Some tc, Some ts => if submitted_ok then Some (ts - tc)%Z else None
       | _, _ => None
       end;
     wait_confirm :=
       match time_called l, time_confirmed l with
       | Some tc, Some tf =>
           if submitted_ok && truthy (time_confirmed l)
           then Some (tf - tc)%Z else None
       | _, _ => None
       end;
     error :=
       match error_ l with
       | Some e => if errored then Some (error_text e) else None
       | None => None
       end;
     wait_error :=
       match time_errored l with
       | Some te => if errored then Some (te - exec_called)%Z else None
       | None => None
       end;
     parsed_error :=
       match error_ l with
       | Some e =>
           if errored then option_map String_fromCharCode (body e) else None
       | None => None
       end;
     rpc_endpoint := endpoint;
     user_address := address |}.

(** The key of the opt-out flag in [localStorage]. *)
Definition optout_key (address : string) : string :=
  "optout-metrics-" ++ address.

(** [localStorage.getItem(key) !== 'true'] *)
Definition is_not_true (v : option string) : bool :=
  match v with
  | Some s => negb (s =? "true")%string
  | None => true
  end.

(** The part of [execute] after the [try] statement. *)
Definition execute_log (txRequest : QueuedTxRequest) (exec_called : Z)
  : Prog unit :=
  l <- call GetLocals ;;
  endpoint <- call GetRpcEndpoint ;;
  address <- call GetAddress ;;
  let logEvent := assemble txRequest exec_called l endpoint address in
  flag <- call (LocalStorageGetItem (optout_key (user_address logEvent))) ;;
  if is_not_true flag then
    c <- call (EventLoggerLogEvent logEvent) ;;
    complete c
  else Ret tt.

Definition execute (txRequest : QueuedTxRequest) : Prog unit :=
  call (SetLocals initial_locals) ;;
  exec_called <- call (DateNow AtExecCalled) ;;
  try_catch (execute_try txRequest) (execute_catch txRequest) ;;
  execute_log txRequest exec_called.

(** ** Running a program against the collaborators *)

(** The answers of the collaborators while one request is processed. *)
Record Env := {
  Date_now : Site -> Z;
  eth_getAddress : string;
  eth_getRpcEndpoint : string;
  eth_getBalance : Promise Q;
  eth_getNonce : Promise Z;
  openConfirmationWindowForTransaction : Promise unit;
  populateTransaction : Promise (string * string);
  forwardOrThrow : Timed TransactionResponse;
  waitForTransaction : Promise TransactionReceipt;
  localStorage_getItem : string -> option string;
  EventLogger_logEvent : Completion unit
}.

(** The effect of one call: its answer, the executor's fields and the
    caller's local variables after it, and what the outside observed. *)
Record Effect (X : Type) := {
  answer : X;
  this_after : TxExecutor;
  locals_after : Locals;
  emitted : list Event
}.
#[global] Arguments answer {X} e.
#[global] Arguments this_after {X} e.
#[global] Arguments locals_after {X} e.
#[global] Arguments emitted {X} e.

Definition quiet {X : Type} (x : X) (th : TxExecutor) (l : Locals)
  : Effect X :=
  {| answer := x; this_after := th; locals_after := l; emitted := [] |}.

Definition handle (env : Env) {X : Type} (c : Call X)
  (th : TxExecutor) (l : Locals) : Effect X :=
  match c in Call X return Effect X with
  | DateNow s => quiet (Date_now env s) th l
  | ThisNonce => quiet (this_nonce th) th l
  | SetThisNonce n =>
      quiet tt {| this_nonce := n;
                  this_lastTransaction := this_lastTransaction th |} l
  | ThisLastTransaction => quiet (this_lastTransaction th) th l
  | SetThisLastTransaction t =>
      quiet tt {| this_nonce := this_nonce th; this_lastTransaction := t |} l
  | GetLocals => quiet l th l
  | SetLocals l' => quiet tt th l'
  | GetAddress => quiet (eth_getAddress env) th l
  | GetRpcEndpoint => quiet (eth_getRpcEndpoint env) th l
  | GetBalance _ => quiet (eth_getBalance env) th l
  | GetNonce => quiet (eth_getNonce env) th l
  | OpenConfirmationWindowForTransaction _ _ =>
      quiet (openConfirmationWindowForTransaction env) th l
  | PopulateTransaction _ _ _ => quiet (populateTransaction env) th l
  | ForwardOrThrow target calldata o =>
      {| answer := forwardOrThrow env; this_after := th; locals_after := l;
         emitted := [Forwarded target calldata o] |}
  | WaitForTransaction _ => quiet (waitForTransaction env) th l
  | LocalStorageGetItem key => quiet (localStorage_getItem env key) th l
  | EventLoggerLogEvent r =>
      {| answer := EventLogger_logEvent env; this_after := th;
         locals_after := l; emitted := [Logged r] |}
  | Emit ev =>
      {| answer := tt; this_after := th; locals_after := l;
         emitted := [ev] |}
  end.

(** How a run of a program ends. *)
Inductive Outcome (A : Type) : Type :=
| Returned (a : A)
| Threw (e : JsError)
| Suspended.
#[global] Arguments Returned {A} a.
#[global] Arguments Threw {A} e.
#[global] Arguments Suspended {A}.

Record Result (A : Type) := {
  outcome : Outcome A;
  final : TxExecutor;
  final_locals : Locals;
  trace : list Event
}.
#[global] Arguments outcome {A} r.
#[global] Arguments final {A} r.
#[global] Arguments final_locals {A} r.
#[global] Arguments trace {A} r.

Fixpoint run {A : Type} (env : Env) (p : Prog A)
  (th : TxExecutor) (l : Locals) : Result A :=
  match p with
  | Ret a =>
      {| outcome := Returned a; final := th; final_locals := l; trace := [] |}
  | Throw e =>
      {| outcome := Threw e; final := th; final_locals := l; trace := [] |}
  | Stuck =>
      {| outcome := Suspended; final := th; final_locals := l; trace := [] |}
  | Vis c k =>
      let e := handle env c th l in
      let r := run env (k (answer e)) (this_after e) (locals_after e) in
      {| outcome := outcome r; final := final r;
         final_locals := final_locals r;
         trace := emitted e ++ trace r |}
  end.

(** Processing of one request by the worker, from fresh local variables. *)
Definition process (env : Env) (txRequest : QueuedTxRequest)
  (th : TxExecutor) : Result unit :=
  run env (execute txRequest) th initial_locals.

(** ** The queue

    [this.txRequests = FastQueue(callbackify(this.execute), 1)].  The
    third-party [fastq] queue is modelled by its discipline: [push] starts
    the worker at once while fewer than [concurrency] invocations are
    running and appends to the waiting list otherwise; when an invocation
    calls back, [release] starts the head of the waiting list, if any. *)

(** An invocation of the worker that has not called back yet: the request
    it was started with, its local variables and what is left to run. *)
Record Task := {
  value_ : QueuedTxRequest;
  frame : Locals;
  rest : Prog unit
}.

Record Config := {
  this : TxExecutor;
  concurrency : nat;
  waiting : list QueuedTxRequest;
  running : list Task;
  allocated : nat;            (* number of promises created by [deferred] *)
  history : list Event
}.

(** [worker.call(context, value, worked)] with the worker
    [callbackify(this.execute)]. *)
Definition start (value : QueuedTxRequest) : Task :=
  {| value_ := value; frame := initial_locals; rest := execute value |}.

Definition push (value : QueuedTxRequest) (cfg : Config) : Config :=
  if (length (running cfg) <? concurrency cfg)%nat then
    {| this := this cfg; concurrency := concurrency cfg;
       waiting := waiting cfg; running := running cfg ++ [start value];
       allocated := allocated cfg; history := history cfg |}
  else
    {| this := this cfg; concurrency := concurrency cfg;
       waiting := waiting cfg ++ [value]; running := running cfg;
       allocated := allocated cfg; history := history cfg |}.

Definition release (cfg : Config) : Config :=
  match waiting cfg with
  | [] => cfg
  | next :: others =>
      {| this := this cfg; concurrency := concurrency cfg;
         waiting := others; running := running cfg ++ [start next];
         allocated := allocated cfg; history := history cfg |}
  end.

(** The callback that [makeRequest] passes to [push]. *)
Definition noop (err : option JsError) : list Event :=
  match err with
  | Some e => [ConsoleError (Some "How did we get here?") e]
  | None => []
  end.

(** Modelled from the spec: [deferred] of utils/Utils, which is not among
    the sources.  It creates a fresh future and returns the function that
    resolves it, the function that rejects it, and the future itself. *)
Definition deferred {T : Type} (fulfil : T -> Settlement) (cfg : Config)
  : (T -> Event) * (JsError -> Event) * PromiseId * Config :=
  let p := allocated cfg in
  (fun v => Settle p (fulfil v),
   fun e => Settle p (RejectWith e),
   p,
   {| this := this cfg; concurrency := concurrency cfg;
      waiting := waiting cfg; running := running cfg;
      allocated := S p; history := history cfg |}).

(** The default value of the parameter [overrides] of [makeRequest]. *)
Definition default_overrides : TransactionRequest :=
  {| to := None; from := None; nonce := None; gasLimit := Some 2000000;
     gasPrice := Some 1000000000; data := None; value := None;
     chainId := None |}.

(** [makeRequest]; an omitted [overrides] argument is [None]. *)
Definition makeRequest (type_ : EthTxType) (actionId_ : string)
  (contract_ : Contract) (args_ : list Arg)
  (overrides_ : option TransactionRequest)
  (snarkLogs_ : option SnarkLogData) (cfg : Config)
  : PendingTransaction * Config :=
  let overrides_ :=
    match overrides_ with Some o => o | None => default_overrides end in
  let '(txResponse, rejectTxResponse, submittedPromise, cfg) :=
    deferred FulfilResponse cfg in
  let '(txReceipt, rejectTxReceipt, receiptPromise, cfg) :=
    deferred FulfilReceipt cfg in
  let cfg :=
    push {| type := type_; actionId := actionId_; contract := contract_;
            args := args_; overrides := overrides_; snarkLogs := snarkLogs_;
            onSubmissionError := rejectTxResponse;
            onReceiptError := rejectTxReceipt;
            onTransactionResponse := txResponse;
            onTransactionReceipt := txReceipt |} cfg in
  ({| submitted := submittedPromise; confirmed := receiptPromise |}, cfg).

(** [constructor(nonce)]: nothing is queued, the queue's concurrency is
    [1], [lastTransaction] is the time of construction. *)
Definition constructor (env : Env) (nonce0 : Z) : Config :=
  {| this := {| this_nonce := nonce0;
                this_lastTransaction := Date_now env AtConstructor |};
     concurrency := 1;
     waiting := []; running := []; allocated := 0; history := [] |}.

(** Whether a worker invocation has come to its end, and with which error
    argument [callbackify] then calls the callback. *)
Definition finished (p : Prog unit) : option (option JsError) :=
  match p with
  | Ret _ => Some None
  | Throw e => Some (Some e)
  | _ => None
  end.

Fixpoint replace_nth {A : Type} (i : nat) (x : A) (l : list A) : list A :=
  match l, i with
  | [], _ => []
  | _ :: t, O => x :: t
  | h :: t, S j => h :: replace_nth j x t
  end.

Fixpoint remove_nth {A : Type} (i : nat) (l : list A) : list A :=
  match l, i with
  | [], _ => []
  | _ :: t, O => t
  | h :: t, S j => h :: remove_nth j t
  end.

(** One step of the whole system: a caller enqueues a request, a running
    invocation performs its next call (the collaborators answer as some
    [env] says), or a finished invocation calls back and releases its
    slot.  An invocation awaiting a promise that never settles takes no
    step. *)
Inductive step : Config -> Config -> Prop :=
| step_makeRequest cfg type_ actionId_ contract_ args_ overrides_ snarkLogs_ :
    step cfg
      (snd (makeRequest type_ actionId_ contract_ args_ overrides_
              snarkLogs_ cfg))
| step_call cfg i t (env : Env) {X : Type} (c : Call X) (k : X -> Prog unit) :
    nth_error (running cfg) i = Some t ->
    rest t = Vis c k ->
    let e := handle env c (this cfg) (frame t) in
    step cfg
      {| this := this_after e; concurrency := concurrency cfg;
         waiting := waiting cfg;
         running :=
           replace_nth i {| value_ := value_ t; frame := locals_after e;
                            rest := k (answer e) |} (running cfg);
         allocated := allocated cfg;
         history := history cfg ++ emitted e |}
| step_callback cfg i t err :
    nth_error (running cfg) i = Some t ->
    finished (rest t) = Some err ->
    step cfg
      (release
         {| this := this cfg; concurrency := concurrency cfg;
            waiting := waiting cfg; running := remove_nth i (running cfg);
            allocated := allocated cfg;
            history := history cfg ++ noop err |}).

Inductive steps : Config -> Config -> Prop :=
| steps_refl cfg : steps cfg cfg
| steps_step cfg1 cfg2 cfg3 :
    steps cfg1 cfg2 -> step cfg2 cfg3 -> steps cfg1 cfg3.

(** The program that a run has come to. *)
Definition leaf (o : Outcome unit) : Prog unit :=
  match o with
  | Returned a => Ret a
  | Threw e => Throw e
  | Suspended => Stuck
  end.

(** What [callbackify] and the callback [noop] do when an invocation of
    [execute] has ended with outcome [o]. *)
Definition called_back (o : Outcome unit) : list Event :=
  match o with
  | Returned _ => noop None
  | Threw e => noop (Some e)
  | Suspended => []
  end.

(** The errors of the spec's taxonomy that [execute] creates itself. *)
Definition InsufficientBalance : JsError := Error "xDAI balance too low!".
Definition SubmissionTimeout (txRequest : QueuedTxRequest) : JsError :=
  Error (timeout_message txRequest).
Definition TransactionReverted : JsError := Error "transaction reverted".

(** The worker at concurrency 1, as a function: the requests are processed
    one after the other, each against its own answers of the collaborators;
    a request that awaits forever stalls the queue. *)
Fixpoint drain (th : TxExecutor) (jobs : list (QueuedTxRequest * Env))
  : TxExecutor * list Event :=
  match jobs with
  | [] => (th, [])
  | (r, env) :: others =>
      let res := process env r th in
      match outcome res with
      | Suspended => (final res, trace res)
      | o =>
          let d := drain (final res) others in
          (fst d, (trace res ++ called_back o ++ snd d)%list)
      end
  end.

(** ** Conditions on the collaborators' answers *)

(** The request passes the balance check, the staleness check, the
    confirmation gate and the encoding of the call, and [n] is the value of
    [this.nonce] it is then forwarded with. *)
Definition reaches_submission (env : Env) (th : TxExecutor) (n : Z) : Prop :=
  (exists b, eth_getBalance env = Resolves b /\ ~ (b < MIN_BALANCE_ETH)%Q) /\
  (if stale (Date_now env AtStaleCheck) (this_lastTransaction th)
   then eth_getNonce env = Resolves n
   else n = this_nonce th) /\
  openConfirmationWindowForTransaction env = Resolves tt /\
  (exists target calldata,
     populateTransaction env = Resolves (target, calldata)).

(** The request passes the balance check and the staleness check, and [n]
    is the value of [this.nonce] when the confirmation window is opened. *)
Definition reaches_gate (env : Env) (th : TxExecutor) (n : Z) : Prop :=
  (exists b, eth_getBalance env = Resolves b /\ ~ (b < MIN_BALANCE_ETH)%Q) /\
  (if stale (Date_now env AtStaleCheck) (this_lastTransaction th)
   then eth_getNonce env = Resolves n
   else n = this_nonce th).

(** The network acknowledges the forwarded transaction with [ack] before
    the submission timeout elapses. *)
Definition acknowledged (env : Env) (ack : TransactionResponse) : Prop :=
  settlement (forwardOrThrow env) = Resolves ack /\
  (settles_after (forwardOrThrow env) < TX_SUBMIT_TIMEOUT)%Z.

(** No answer of the network, neither acknowledgement nor failure, arrives
    before the submission timeout elapses. *)
Definition not_acknowledged_in_time (env : Env) : Prop :=
  settlement (forwardOrThrow env) = NeverSettles \/
  (TX_SUBMIT_TIMEOUT <= settles_after (forwardOrThrow env))%Z.

(** Every promise that [execute] awaits without a timeout settles. *)
Definition responsive (env : Env) : Prop :=
  eth_getBalance env <> NeverSettles /\
  eth_getNonce env <> NeverSettles /\
  openConfirmationWindowForTransaction env <> NeverSettles /\
  populateTransaction env <> NeverSettles /\
  waitForTransaction env <> NeverSettles.

(** The same collaborators, with an instrumentation sink that behaves as
    [c]. *)
Definition with_sink (env : Env) (c : Completion unit) : Env :=
  {| Date_now := Date_now env;
     eth_getAddress := eth_getAddress env;
     eth_getRpcEndpoint := eth_getRpcEndpoint env;
     eth_getBalance := eth_getBalance env;
     eth_getNonce := eth_getNonce env;
     openConfirmationWindowForTransaction :=
       openConfirmationWindowForTransaction env;
     populateTransaction := populateTransaction env;
     forwardOrThrow := forwardOrThrow env;
     waitForTransaction := waitForTransaction env;
     localStorage_getItem := localStorage_getItem env;
     EventLogger_logEvent := c |}.

(** The same collaborators, with the connection's account being
    [address]. *)
Definition with_address (env : Env) (address : string) : Env :=
  {| Date_now := Date_now env;
     eth_getAddress := address;
     eth_getRpcEndpoint := eth_getRpcEndpoint env;
     eth_getBalance := eth_getBalance env;
     eth_getNonce := eth_getNonce env;
     openConfirmationWindowForTransaction :=
       openConfirmationWindowForTransaction env;
     populateTransaction := populateTransaction env;
     forwardOrThrow := forwardOrThrow env;
     waitForTransaction := waitForTransaction env;
     localStorage_getItem := localStorage_getItem env;
     EventLogger_logEvent := EventLogger_logEvent env |}.

(** The same collaborators after [localStorage.setItem(key, v)]
    ([v = None]: after [removeItem(key)]). *)
Definition with_item (env : Env) (key : string) (v : option string) : Env :=
  {| Date_now := Date_now env;
     eth_getAddress := eth_getAddress env;
     eth_getRpcEndpoint := eth_getRpcEndpoint env;
     eth_getBalance := eth_getBalance env;
     eth_getNonce := eth_getNonce env;
     openConfirmationWindowForTransaction :=
       openConfirmationWindowForTransaction env;
     populateTransaction := populateTransaction env;
     forwardOrThrow := forwardOrThrow env;
     waitForTransaction := waitForTransaction env;
     localStorage_getItem :=
       fun k => if (k =? key)%string then v else localStorage_getItem env k;
     EventLogger_logEvent := EventLogger_logEvent env |}.

(** Whenever a request of [jobs] finds the nonce stale, the network's
    value is the local one. *)
Fixpoint refresh_agrees (th : TxExecutor) (jobs : list (QueuedTxRequest * Env))
  : Prop :=
  match jobs with
  | [] => True
  | (r, env) :: others =>
      (stale (Date_now env AtStaleCheck) (this_lastTransaction th) = true ->
       forall m, eth_getNonce env = Resolves m -> m = this_nonce th) /\
      refresh_agrees (final (process env r th)) others
  end.

(** Whenever a request of [jobs] finds the nonce stale, the network's
    value is not below the local one. *)
Fixpoint refresh_not_behind (th : TxExecutor)
  (jobs : list (QueuedTxRequest * Env)) : Prop :=
  match jobs with
  | [] => True
  | (r, env) :: others =>
      (stale (Date_now env AtStaleCheck) (this_lastTransaction th) = true ->
       forall m, eth_getNonce env = Resolves m -> (this_nonce th <= m)%Z) /\
      refresh_not_behind (final (process env r th)) others
  end.

(** ** Observations on traces *)

(** The nonces of the forwarded transactions whose acknowledgement was
    handed to a request's [onTransactionResponse]: the call follows the
    forwarding directly. *)
Fixpoint submitted_nonces (tr : list Event) : list Z :=
  match tr with
  | [] => []
  | ev :: tr' =>
      match ev, tr' with
      | Forwarded _ _ o, Settle _ (FulfilResponse _) :: _ =>
          match nonce o with
          | Some n => n :: submitted_nonces tr'
          | None => submitted_nonces tr'
          end
      | _, _ => submitted_nonces tr'
      end
  end.

(** [k] consecutive integers from [n] on. *)
Fixpoint consecutive (n : Z) (k : nat) : list Z :=
  match k with
  | O => []
  | S k' => n :: consecutive (n + 1) k'
  end.

(** Whether the last event of a trace is a forwarding. *)
Fixpoint ends_forwarding (tr : list Event) : bool :=
  match tr with
  | [] => false
  | [Forwarded _ _ _] => true
  | _ :: tr' => ends_forwarding tr'
  end.

(** All calls of resolve and reject functions, in order. *)
Fixpoint settles (tr : list Event) : list (PromiseId * Settlement) :=
  match tr with
  | [] => []
  | Settle p s :: tr' => (p, s) :: settles tr'
  | _ :: tr' => settles tr'
  end.

(** The request [r] with its four callbacks taken from two deferreds, as
    [makeRequest] builds it: [p] backs [submitted], [q] backs
    [confirmed]. *)
Definition wired (p q : PromiseId) (r : QueuedTxRequest) : QueuedTxRequest :=
  {| onSubmissionError := fun e => Settle p (RejectWith e);
     onReceiptError := fun e => Settle q (RejectWith e);
     onTransactionResponse := fun v => Settle p (FulfilResponse v);
     onTransactionReceipt := fun v => Settle q (FulfilReceipt v);
     type := type r; actionId := actionId r; contract := contract r;
     args := args r; overrides := overrides r; snarkLogs := snarkLogs r |}.

(** The calls of the resolve and reject functions of promise [p], in
    order. *)
Fixpoint settlements (p : PromiseId) (tr : list Event) : list Settlement :=
  match tr with
  | [] => []
  | Settle p' s :: tr' =>
      if (p' =? p)%nat then s :: settlements p tr' else settlements p tr'
  | _ :: tr' => settlements p tr'
  end.

(** The state of promise [p]: a promise keeps its first settlement. *)
Definition promise_state (p : PromiseId) (tr : list Event)
  : option Settlement :=
  hd_error (settlements p tr).

(** The number of low-balance notifications. *)
Fixpoint notifications (tr : list Event) : nat :=
  match tr with
  | [] => O
  | BalanceEmpty :: tr' => S (notifications tr')
  | _ :: tr' => notifications tr'
  end.

(** The records handed to the instrumentation sink. *)
Fixpoint records (tr : list Event) : list LogEvent :=
  match tr with
  | [] => []
  | Logged r :: tr' => r :: records tr'
  | _ :: tr' => records tr'
  end.

(** The override objects of the transactions handed to the network. *)
Fixpoint forwarded (tr : list Event) : list TransactionRequest :=
  match tr with
  | [] => []
  | Forwarded _ _ o :: tr' => o :: forwarded tr'
  | _ :: tr' => forwarded tr'
  end.

(** The errors printed by the [console.error(e)] of the catch block. *)
Fixpoint console_errors (tr : list Event) : list JsError :=
  match tr with
  | [] => []
  | ConsoleError None e :: tr' => e :: console_errors tr'
  | _ :: tr' => console_errors tr'
  end.

(** The errors that futures were rejected with. *)
Fixpoint rejections (tr : list Event) : list JsError :=
  match tr with
  | [] => []
  | Settle _ (RejectWith e) :: tr' => e :: rejections tr'
  | _ :: tr' => rejections tr'
  end.

(** ** Predicates on what is left to run

    Both follow every path through a program, whatever the collaborators
    answer at each call. *)

(** The program calls a resolve or reject function of promise [p] before
    it ends. *)
Fixpoint will_settle (p : PromiseId) (l : Locals) (prog : Prog unit) : Prop :=
  match prog with
  | Ret _ => False
  | Throw _ => False
  | Stuck => True
  | Vis c k =>
      forall (env : Env) (th : TxExecutor),
        let e := handle env c th l in
        settlements p (emitted e) <> [] \/
        will_settle p (locals_after e) (k (answer e))
  end.

(** The program settles no promise other than [p] and [q]. *)
Fixpoint settles_only (p q : PromiseId) (l : Locals) (prog : Prog unit)
  : Prop :=
  match prog with
  | Vis c k =>
      forall (env : Env) (th : TxExecutor),
        let e := handle env c th l in
        (forall p' s, In (Settle p' s) (emitted e) -> p' = p \/ p' = q) /\
        settles_only p q (locals_after e) (k (answer e))
  | _ => True
  end.

(** The futures of the [k]-th request made (counting from 0) on an
    executor, whose first [deferred] creates promise 0. *)
Definition submitted_of (k : nat) : PromiseId := (2 * k)%nat.
Definition confirmed_of (k : nat) : PromiseId := S (2 * k).

(** The [k]-th request made, as [makeRequest] pushes it. *)
Definition kth_request (k : nat) (v : QueuedTxRequest) : Prop :=
  exists r, v = wired (submitted_of k) (confirmed_of k) r.

(** The waiting list holds the requests number [k], [k + 1], ... in this
    order. *)
Fixpoint queued_from (k : nat) (w : list QueuedTxRequest) : Prop :=
  match w with
  | [] => True
  | v :: w' => kth_request k v /\ queued_from (S k) w'
  end.

(** The state of the queue when [d] requests have been processed to their
    end. *)
Definition shape (d : nat) (cfg : Config) : Prop :=
  concurrency cfg = 1%nat /\
  (forall k, (k < d)%nat ->
             settlements (submitted_of k) (history cfg) <> []) /\
  match running cfg with
  | [] =>
      waiting cfg = [] /\ allocated cfg = submitted_of d /\
      (forall p s, In (Settle p s) (history cfg) ->
                   (p < submitted_of d)%nat)
  | [t] =>
      kth_request d (value_ t) /\
      (settlements (submitted_of d) (history cfg) <> [] \/
       will_settle (submitted_of d) (frame t) (rest t)) /\
      settles_only (submitted_of d) (confirmed_of d) (frame t) (rest t) /\
      queued_from (S d) (waiting cfg) /\
      allocated cfg = submitted_of (S d + length (waiting cfg)) /\
      (forall p s, In (Settle p s) (history cfg) ->
                   (p < submitted_of (S d))%nat)
  | _ => False
  end.

End TxExecutor.

(** * EthDecoders: the upgrade decoders of src/api/EthDecoders.ts *)

(** What the decoders use of ethers' [BigNumber]: [toNumber()], which
    throws when the value does not fit a JavaScript number. *)
Class Ethers := {
  BigNumber : Type;
  toNumber : BigNumber -> Completion Z
}.

Section EthDecoders.

Context `{Ethers}.

(** [Upgrade] of GlobalTypes. *)
Record Upgrade := {
  energyCapMultiplier : Z;
  energyGroMultiplier : Z;
  rangeMultiplier : Z;
  speedMultiplier : Z;
  defMultiplier : Z
}.

(** [RawUpgrade]: the array-like value that the contract call returns. *)
Definition RawUpgrade := list BigNumber.

(** Sequencing of calls that may throw. *)
Definition and_then {A B : Type} (c : Completion A) (k : A -> Completion B)
  : Completion B :=
  match c with
  | Returns a => k a
  | Throws e => Throws e
  end.

(** The TypeError of a method call on [undefined]. *)
Definition TypeError_undefined : JsError :=
  Error "Cannot read property 'toNumber' of undefined".

(** [raw[i].toNumber()]: an index past the end reads [undefined]. *)
Definition toNumber_at (raw : RawUpgrade) (i : nat) : Completion Z :=
  match nth_error raw i with
  | Some b => toNumber b
  | None => Throws TypeError_undefined
  end.

(** [rawUpgradeToUpgrade]: the properties of the object literal are
    evaluated in the order they are written. *)
Definition rawUpgradeToUpgrade (rawUpgrade : RawUpgrade) : Completion Upgrade :=
  and_then (toNumber_at rawUpgrade 0) (fun n0 =>
  and_then (toNumber_at rawUpgrade 1) (fun n1 =>
  and_then (toNumber_at rawUpgrade 2) (fun n2 =>
  and_then (toNumber_at rawUpgrade 3) (fun n3 =>
  and_then (toNumber_at rawUpgrade 4) (fun n4 =>
  Returns {| energyCapMultiplier := n0; energyGroMultiplier := n1;
             rangeMultiplier := n2; speedMultiplier := n3;
             defMultiplier := n4 |}))))).

(** [Array.prototype.map] with a callback that may throw: the elements are
    visited in order and the first exception ends the call. *)
Fixpoint array_map {A B : Type} (f : A -> Completion B) (l : list A)
  : Completion (list B) :=
  match l with
  | [] => Returns []
  | a :: l' =>
      and_then (f a) (fun b =>
      and_then (array_map f l') (fun bs => Returns (b :: bs)))
  end.

Definition rawUpgradesInfoToUpgradesInfo
  (rawUpgradesInfo : list (list RawUpgrade))
  : Completion (list (list Upgrade)) :=
  array_map (fun a => array_map (fun b => rawUpgradeToUpgrade b) a)
    rawUpgradesInfo.

End EthDecoders.

(** ** Concrete inputs *)

Module Demo.

#[local] Instance imports : Imports := {|
  EthTxType := string;
  TxTypeToEthFunctionName := fun t => t;
  Contract := string;
  Arg := Z;
  SnarkLogData := bool;
  proofVerified := fun b => b;
  JSON_stringify_snarkLogs := fun b => if b then "true" else "false";
  JSON_stringify_error := fun e => "{}";
  String_fromCharCode := fun _ => ""
|}.

(** The descriptive fields of a request. *)
Definition move : QueuedTxRequest :=
  {| onSubmissionError := fun _ => BalanceEmpty;
     onReceiptError := fun _ => BalanceEmpty;
     onTransactionResponse := fun _ => BalanceEmpty;
     onTransactionReceipt := fun _ => BalanceEmpty;
     type := "MOVE"; actionId := "a1"; contract := "core"; args := [1%Z];
     overrides := emptyTransactionRequest; snarkLogs := None |}.

(** The request as [makeRequest] builds it on the deferreds [p] and [q]. *)
Definition req (p q : nat) : QueuedTxRequest := wired p q move.

(** An executor holding nonce 5, last refreshed at time 1000. *)
Definition th5 : TxExecutor :=
  {| this_nonce := 5; this_lastTransaction := 1000 |}.

Definition ack : TransactionResponse := {| hash := "0xh" |}.

Definition reverted : TransactionReceipt :=
  {| transactionHash := "0xh"; status := Some 0 |}.

Definition mined : TransactionReceipt :=
  {| transactionHash := "0xh"; status := Some 1 |}.

(** Clock readings [t], [t + 1], ... at the call sites of one request. *)
Definition clock (t : Z) (s : Site) : Z :=
  match s with
  | AtConstructor => 1000
  | AtExecCalled => t
  | AtStaleCheck => t + 1
  | AtCalled => t + 2
  | AtSubmitted => t + 3
  | AtConfirmed => t + 4
  | AtErrored => t + 5
  end.

(** Collaborators that let a request through at time [t]: the network
    answers the nonce query with [n], the submission as [f] says and the
    receipt query with [w]; the balance is [b]. *)
Definition world (t : Z) (b : Q) (n : Z) (f : Timed TransactionResponse)
  (w : Promise TransactionReceipt) : Env :=
  {| Date_now := clock t;
     eth_getAddress := "0xB"; eth_getRpcEndpoint := "rpc";
     eth_getBalance := Resolves b; eth_getNonce := Resolves n;
     openConfirmationWindowForTransaction := Resolves tt;
     populateTransaction := Resolves ("0xto", "0xdata");
     forwardOrThrow := f;
     waitForTransaction := w;
     localStorage_getItem :=
       fun k => if (k =? "optout-metrics-0xA")%string then Some "true"
                else None;
     EventLogger_logEvent := Returns tt |}.

Definition in_time : Timed TransactionResponse :=
  {| settles_after := 10; settlement := Resolves ack |}.

Definition silent : Timed TransactionResponse :=
  {| settles_after := 0; settlement := NeverSettles |}.

(** The transaction is acknowledged and its receipt reports status 0. *)
Definition env_reverted : Env :=
  world 2000 (1 # 1) 9 in_time (Resolves reverted).

(** The transaction is acknowledged and its receipt reports status 1. *)
Definition env_ok : Env :=
  world 2000 (1 # 1) 9 in_time (Resolves mined).

(** The balance is 0.001. *)
Definition env_low : Env :=
  world 2000 (1 # 1000) 9 in_time (Resolves reverted).

(** The network never answers the submission. *)
Definition env_timeout : Env :=
  world 2000 (1 # 1) 9 silent (Resolves reverted).

(** The same, 29 seconds after the last transaction: the nonce is stale
    and the network reports 9. *)
Definition env_stale_timeout : Env :=
  world 30000 (1 # 1) 9 silent (Resolves reverted).

(** The nonce is stale and the network reports 5; the transaction is
    acknowledged. *)
Definition env_stale_5 : Env :=
  world 30000 (1 # 1) 5 in_time (Resolves mined).

(** The nonce is stale and the network reports 3; the submission times
    out. *)
Definition env_stale_3 : Env :=
  world 30000 (1 # 1) 3 silent (Resolves reverted).

(** The construction-time clock reads [t]. *)
Definition constructed_at (t : Z) : Env :=
  {| Date_now := fun _ => t;
     eth_getAddress := "0xB"; eth_getRpcEndpoint := "rpc";
     eth_getBalance := Resolves (1 # 1)%Q; eth_getNonce := Resolves 9;
     openConfirmationWindowForTransaction := Resolves tt;
     populateTransaction := Resolves ("0xto", "0xdata");
     forwardOrThrow := in_time;
     waitForTransaction := Resolves mined;
     localStorage_getItem := fun _ => None;
     EventLogger_logEvent := Returns tt |}.


(** Three requests: one goes through, one fails the balance check, one
    goes through and is reverted. *)
Definition jobs : list (QueuedTxRequest * Env) :=
  [(req 0 1, env_ok); (req 2 3, env_low); (req 4 5, env_reverted)].

(** The player refuses the transaction in the confirmation window. *)
Definition env_denied : Env :=
  {| Date_now := clock 2000;
     eth_getAddress := "0xB"; eth_getRpcEndpoint := "rpc";
     eth_getBalance := Resolves (1 # 1)%Q; eth_getNonce := Resolves 9;
     openConfirmationWindowForTransaction := Rejects (Error "denied");
     populateTransaction := Resolves ("0xto", "0xdata");
     forwardOrThrow := in_time;
     waitForTransaction := Resolves mined;
     localStorage_getItem := fun _ => None;
     EventLogger_logEvent := Returns tt |}.

(** The transaction is acknowledged and the receipt query fails. *)
Definition env_receipt_down : Env :=
  world 2000 (1 # 1) 9 in_time (Rejects (Error "network down")).

(** The transaction is acknowledged and the receipt never arrives. *)
Definition env_hung : Env :=
  world 2000 (1 # 1) 9 in_time NeverSettles.

(** The nonce is stale and the network reports 9, ahead of the local
    nonce; the transaction is acknowledged. *)
Definition env_stale_9 : Env :=
  world 30000 (1 # 1) 9 in_time (Resolves mined).

(** The nonce is stale and the network reports 6; the transaction is
    acknowledged. *)
Definition env_stale_6 : Env :=
  world 30000 (1 # 1) 6 in_time (Resolves mined).


(** An executor holding nonce [2 ^ 53]. *)
Definition th_max : TxExecutor :=
  {| this_nonce := 9007199254740992; this_lastTransaction := 1000 |}.

(** Three acknowledged requests, the second after a refresh that finds the
    network at 9. *)
Definition jobs_ahead : list (QueuedTxRequest * Env) :=
  [(req 0 1, env_ok); (req 2 3, env_stale_9); (req 4 5, env_ok)].

(** Three acknowledged requests, the second after a refresh that finds the
    network at 6, which is the local nonce. *)
Definition jobs_agree : list (QueuedTxRequest * Env) :=
  [(req 0 1, env_ok); (req 2 3, env_stale_6); (req 4 5, env_reverted)].

(** The executor after a call of [makeRequest] for the request [move]. *)
Definition request_made (cfg : Config) : Config :=
  snd (makeRequest (type move) (actionId move) (contract move) (args move)
         (Some (overrides move)) (snarkLogs move) cfg).

(** The executor after three calls of [makeRequest], when the first request
    has been processed against [env_ok] and has called back: the second
    request is running, the third waits. *)
Definition second_running : Config :=
  let res := process env_ok (req 0 1) th5 in
  {| this := final res; concurrency := 1; waiting := [req 4 5];
     running := [start (req 2 3)]; allocated := 6;
     history := [] ++ trace res ++ called_back (outcome res) |}.

(** The executor after two calls of [makeRequest], when both requests have
    been processed and have called back. *)
Definition both_done : Config :=
  let res := process env_ok (req 0 1) th5 in
  let res' := process env_reverted (req 2 3) (final res) in
  {| this := final res'; concurrency := 1; waiting := [];
     running := []; allocated := 4;
     history :=
       ([] ++ trace res ++ called_back (outcome res))
         ++ trace res' ++ called_back (outcome res') |}.

(** Big numbers as integers; [toNumber] throws outside the range of the
    safe integers. *)
#[local] Instance ethers : Ethers := {|
  BigNumber := Z;
  toNumber := fun z =>
    if (Z.abs z <=? 9007199254740991)%Z then Returns z
    else Throws (Error "overflow")
|}.

(** The upgrades of one branch, and a table of two branches. *)
Definition raw_branch : list RawUpgrade :=
  [[120; 120; 100; 100; 100]; [100; 100; 125; 100; 100]]%Z.

Definition raw_table : list (list RawUpgrade) := [raw_branch; []].

Definition branch : list Upgrade :=
  [{| energyCapMultiplier := 120; energyGroMultiplier := 120;
      rangeMultiplier := 100; speedMultiplier := 100;
      defMultiplier := 100 |};
   {| energyCapMultiplier := 100; energyGroMultiplier := 100;
      rangeMultiplier := 125; speedMultiplier := 100;
      defMultiplier := 100 |}].

End Demo.


Section Verification.

Context `{Imports}.

#[local] Arguments optout_key : simpl never.
#[local] Arguments assemble : simpl never.
#[local] Arguments timeout_message : simpl never.
#[local] Arguments is_not_true v : simpl nomatch.
#[local] Arguments Qlt_bool : simpl never.
#[local] Arguments truthy t : simpl nomatch.
#[local] Arguments status_is_not_1 : simpl never.
#[local] Arguments spread_with_nonce : simpl never.
#[local] Arguments timeoutAfter : simpl never.
#[local] Arguments stale : simpl never.
#[local] Arguments Error : simpl never.
#[local] Arguments Z.add : simpl never.
#[local] Arguments number_add : simpl never.

Ltac unfold_execute :=
  unfold process, execute, execute_log, execute_try, execute_catch,
    checkBalance, maybeUpdateNonce, assign, call.

(** ** The queue proceeds

    Lemmas and tactics shared by the theorems below. *)

Lemma steps_trans (c1 c2 c3 : Config) :
  steps c1 c2 -> steps c2 c3 -> steps c1 c3.
Proof.
  intros H12 H23. induction H23 as [|c2 c3 c4 _ IH Hs].
  - exact H12.
  - eapply steps_step; [apply IH; exact H12 | exact Hs].
Qed.

Lemma steps_one (c1 c2 : Config) : step c1 c2 -> steps c1 c2.
Proof. intro Hs. eapply steps_step; [apply steps_refl | exact Hs]. Qed.

(** A single running invocation can take, call by call, the run that [run]
    computes. *)
Lemma run_steps (env : Env) (p : Prog unit) :
  forall (th : TxExecutor) (l : Locals) (v : QueuedTxRequest)
         (n : nat) (w : list QueuedTxRequest) (a : nat) (h : list Event),
    let r := run env p th l in
    steps
      {| this := th; concurrency := n; waiting := w;
         running := [{| value_ := v; frame := l; rest := p |}];
         allocated := a; history := h |}
      {| this := final r; concurrency := n; waiting := w;
         running := [{| value_ := v; frame := final_locals r;
                        rest := leaf (outcome r) |}];
         allocated := a; history := h ++ trace r |}.
Proof.
  induction p as [x | e | | X c k IH]; intros th l v n w a h; cbn.
  - rewrite app_nil_r. apply steps_refl.
  - rewrite app_nil_r. apply steps_refl.
  - rewrite app_nil_r. apply steps_refl.
  - eapply steps_trans.
    + apply steps_one.
      eapply (step_call _ 0 _ env c k); cbn; reflexivity.
    + cbn. rewrite app_assoc. apply IH.
Qed.

(** When the processing of the only running request ends, the callback is
    called and the slot is released. *)
Lemma worker_calls_back (env : Env) (v : QueuedTxRequest)
  (w : list QueuedTxRequest) (th : TxExecutor) (n a : nat)
  (h : list Event) :
  let r := process env v th in
  outcome r <> Suspended ->
  steps
    {| this := th; concurrency := n; waiting := w;
       running := [start v]; allocated := a; history := h |}
    (release
       {| this := final r; concurrency := n; waiting := w;
          running := []; allocated := a;
          history := h ++ trace r ++ called_back (outcome r) |}).
Proof.
  intros r Hr.
  eapply steps_step.
  - apply (run_steps env (execute v) th initial_locals v n w a h).
  - fold (process env v th). fold r.
    assert (Hf : exists err, finished (leaf (outcome r)) = Some err
                             /\ called_back (outcome r) = noop err).
    { destruct (outcome r) as [[]|e|]; cbn.
      - exists None. split; reflexivity.
      - exists (Some e). split; reflexivity.
      - contradiction. }
    destruct Hf as [err [Hfin Hcb]].
    rewrite Hcb, app_assoc.
    apply (step_callback
             {| this := final r; concurrency := n; waiting := w;
                running := [{| value_ := v; frame := final_locals r;
                               rest := leaf (outcome r) |}];
                allocated := a; history := h ++ trace r |}
             0 {| value_ := v; frame := final_locals r;
                  rest := leaf (outcome r) |} err);
      [reflexivity | exact Hfin].
Qed.

(** In particular the head of the waiting list is started. *)
Lemma worker_proceeds (env : Env) (v next : QueuedTxRequest)
  (others : list QueuedTxRequest) (th : TxExecutor) (n a : nat)
  (h : list Event) :
  let r := process env v th in
  outcome r <> Suspended ->
  steps
    {| this := th; concurrency := n; waiting := next :: others;
       running := [start v]; allocated := a; history := h |}
    {| this := final r; concurrency := n; waiting := others;
       running := [start next]; allocated := a;
       history := h ++ trace r ++ called_back (outcome r) |}.
Proof.
  intros r Hr.
  exact (worker_calls_back env v (next :: others) th n a h Hr).
Qed.

Lemma Qlt_bool_true (x y : Q) : (x < y)%Q -> Qlt_bool x y = true.
Proof.
  intro Hlt. unfold Qlt_bool.
  destruct (Qle_bool y x) eqn:E; [|reflexivity].
  apply Qle_bool_iff in E. exfalso. exact (Qlt_not_le _ _ Hlt E).
Qed.

Lemma Qlt_bool_false (x y : Q) : ~ (x < y)%Q -> Qlt_bool x y = false.
Proof.
  intro Hn. unfold Qlt_bool.
  destruct (Qle_bool y x) eqn:E; [reflexivity|].
  exfalso. apply Hn. apply Qnot_le_lt. intro Hle.
  apply Qle_bool_iff in Hle. congruence.
Qed.

Lemma to_double_small (a : Z) :
  (Z.log2 (Z.abs a) - 52 <= 0)%Z -> to_double a = a.
Proof.
  intro He. unfold to_double.
  destruct (Z.leb_spec (Z.log2 (Z.abs a) - 52) 0); [reflexivity | lia].
Qed.

(** Rounding a positive integer loses at most the remainder. *)
Lemma to_double_lower (a : Z) :
  (0 < a)%Z -> (0 < Z.log2 a - 52)%Z ->
  (a - a mod 2 ^ (Z.log2 a - 52) <= to_double a)%Z.
Proof.
  intros Ha He. unfold to_double.
  rewrite (Z.abs_eq a) by lia. rewrite (Z.sgn_pos a) by lia.
  destruct (Z.leb_spec (Z.log2 a - 52) 0) as [He' | _]; [lia|].
  cbv zeta.
  set (ulp := (2 ^ (Z.log2 a - 52))%Z).
  assert (Hulp : (0 < ulp)%Z) by (apply Z.pow_pos_nonneg; lia).
  pose proof (Z.div_mod a ulp ltac:(lia)) as Hdm.
  assert (Hq : forall q', (a / ulp <= q')%Z ->
                          (a - a mod ulp <= 1 * (q' * ulp))%Z) by nia.
  destruct (_ <? _)%Z; [apply Hq; lia|].
  destruct (_ <? _)%Z; [apply Hq; lia|].
  destruct (Z.even _); apply Hq; lia.
Qed.

(** A number that is its own rounding is a multiple of its unit. *)
Lemma double_mod (n : Z) :
  (0 < n)%Z -> to_double n = n -> (0 < Z.log2 n - 52)%Z ->
  (n mod 2 ^ (Z.log2 n - 52) = 0)%Z.
Proof.
  intros Hn Hd He. unfold to_double in Hd.
  rewrite (Z.abs_eq n) in Hd by lia. rewrite (Z.sgn_pos n) in Hd by lia.
  destruct (Z.leb_spec (Z.log2 n - 52) 0) as [He' | _]; [lia|].
  cbv zeta in Hd. rewrite <- Hd at 1. rewrite Z.mul_1_l.
  apply Z.mod_mul. apply Z.pow_nonzero; lia.
Qed.

(** Adding 1 to a number that is not negative never yields less. *)
Lemma number_add_1_le (n : Z) :
  (0 <= n)%Z -> representable n -> (n <= number_add n 1)%Z.
Proof.
  unfold representable. intros Hn Hd. unfold number_add.
  destruct (Z.leb_spec (Z.log2 (n + 1) - 52) 0) as [He | He].
  { rewrite to_double_small; [lia|]. rewrite Z.abs_eq by lia. exact He. }
  pose proof (to_double_lower (n + 1) ltac:(lia) He) as Hlow.
  enough ((n + 1) mod 2 ^ (Z.log2 (n + 1) - 52) <= 1)%Z by lia.
  assert (Hn0 : (0 < n)%Z).
  { destruct (Z.eq_dec n 0) as [-> | ]; [|lia].
    vm_compute in He. discriminate. }
  destruct (Z.log2_succ_or n) as [Hs | Hs]; unfold Z.succ in Hs.
  - (* [n + 1] is a power of two *)
    destruct (Z.log2_eq_succ_is_pow2 n Hs) as [b Hb].
    unfold Z.succ in Hb.
    assert (Hb0 : (0 <= b)%Z).
    { destruct (Z.lt_ge_cases b 0) as [Hneg | ]; [|assumption].
      rewrite Z.pow_neg_r in Hb by assumption. lia. }
    assert (Hlb : Z.log2 (n + 1) = b) by (rewrite Hb; apply Z.log2_pow2; lia).
    rewrite Hlb in *. rewrite Hb.
    replace b with ((b - (b - 52)) + (b - 52))%Z at 1 by lia.
    rewrite Z.pow_add_r by lia.
    rewrite Z.mod_mul by (apply Z.pow_nonzero; lia). lia.
  - rewrite Hs in *.
    pose proof (double_mod n Hn0 Hd He) as Hm.
    assert (Hulp : (2 <= 2 ^ (Z.log2 n - 52))%Z).
    { change 2%Z with (2 ^ 1)%Z at 1. apply Z.pow_le_mono_r; lia. }
    rewrite <- Zplus_mod_idemp_l, Hm. cbn [Z.add].
    rewrite Z.mod_small; lia.
Qed.

(** On the safe integers the addition of 1 is exact. *)
Lemma number_add_safe (n : Z) : safe_integer n -> number_add n 1 = (n + 1)%Z.
Proof.
  unfold safe_integer, Number_MAX_SAFE_INTEGER, number_add, to_double.
  intros [Hlo Hhi].
  destruct (Z.eq_dec (n + 1) 9007199254740992) as [-> | Hne];
    [vm_compute; reflexivity|].
  assert (Ha : (Z.abs (n + 1) < 2 ^ 53)%Z)
    by (change (2 ^ 53)%Z with 9007199254740992%Z; lia).
  assert (Hl : (Z.log2 (Z.abs (n + 1)) < 53)%Z).
  { destruct (Z.eq_dec (Z.abs (n + 1)) 0) as [-> | Hz]; [reflexivity|].
    apply Z.log2_lt_pow2; lia. }
  cbv zeta.
  destruct (Z.leb_spec (Z.log2 (Z.abs (n + 1)) - 52) 0); [reflexivity | lia].
Qed.

Lemma timeoutAfter_acknowledged (env : Env) (ack : TransactionResponse)
  (msg : string) :
  acknowledged env ack ->
  timeoutAfter (forwardOrThrow env) TX_SUBMIT_TIMEOUT msg = Resolves ack.
Proof.
  intros [Hs Hlt]. unfold timeoutAfter. rewrite Hs.
  apply Z.ltb_lt in Hlt. rewrite Hlt. reflexivity.
Qed.

Lemma timeoutAfter_late (env : Env) (msg : string) :
  not_acknowledged_in_time env ->
  timeoutAfter (forwardOrThrow env) TX_SUBMIT_TIMEOUT msg
  = Rejects (Error msg).
Proof.
  intros [Hn | Hle]; unfold timeoutAfter.
  - rewrite Hn. reflexivity.
  - apply Z.ltb_ge in Hle. rewrite Hle.
    destruct (settlement (forwardOrThrow env)); reflexivity.
Qed.

(** A wait bounded by [timeoutAfter] always comes to an end. *)
Lemma timeoutAfter_settles {X : Type} (f : Timed X) (ms : Z) (msg : string) :
  timeoutAfter f ms msg <> NeverSettles.
Proof.
  unfold timeoutAfter.
  destruct (settlement f); [destruct (_ <? _)%Z | destruct (_ <? _)%Z |];
    discriminate.
Qed.

(** Runs the request up to the call of [forwardOrThrow]. *)
Ltac to_submission Hreach :=
  let b := fresh "b" in
  let Hb := fresh "Hb" in
  let Hlow := fresh "Hlow" in
  let Hn := fresh "Hn" in
  let Hg := fresh "Hg" in
  let Hp := fresh "Hp" in
  let Est := fresh "Est" in
  destruct Hreach as ((b & Hb & Hlow) & Hn & Hg & (? & ? & Hp));
  apply Qlt_bool_false in Hlow;
  unfold_execute; cbn; rewrite Hb; cbn; rewrite Hlow; cbn;
  destruct (stale _ _) eqn:Est; cbn;
  [rewrite Hn; cbn | subst];
  rewrite Hg; cbn; rewrite Hp; cbn.

(** The trace of the logging part has no settlement in it. *)
Ltac finish_log env :=
  destruct (is_not_true _); cbn;
  [destruct (EventLogger_logEvent env); cbn|].

Lemma user_address_assemble (r : QueuedTxRequest) (t : Z) (l : Locals)
  (endpoint address : string) :
  user_address (assemble r t l endpoint address) = address.
Proof. reflexivity. Qed.

(** Case analysis on every answer that the control flow of [execute]
    depends on. *)
Ltac crawl_with tac :=
  repeat (cbn in *; rewrite ?user_address_assemble in *; tac;
          match goal with
          | |- context [await ?x] => destruct x eqn:?
          | |- context [complete ?x] => destruct x eqn:?
          | |- context [if ?b then _ else _] => destruct b eqn:?
          | |- context [match ?x with _ => _ end] => destruct x eqn:?
          end);
  cbn in *;
  try match goal with
      | E : timeoutAfter _ _ _ = NeverSettles |- _ =>
          exfalso; exact (timeoutAfter_settles _ _ _ E)
      end.

Ltac crawl := crawl_with idtac.

(** ** One request *)

(** C1 (amended): when the transaction is acknowledged in time and its
    receipt reports failed execution, the submitted future is resolved with
    the acknowledgement, the confirmed future is resolved with that receipt
    and never rejected, the error "transaction reverted" is only kept for the
    instrumentation record (which carries it unless the clock reads 0 at
    confirmation), and the nonce, a safe integer, is incremented. *)
Theorem C1_reverted_receipt (env : Env) (r : QueuedTxRequest)
  (p q : PromiseId) (th : TxExecutor) (n : Z) (ack : TransactionResponse)
  (rcpt : TransactionReceipt) :
  p <> q ->
  reaches_submission env th n ->
  safe_integer n ->
  acknowledged env ack ->
  waitForTransaction env = Resolves rcpt ->
  status rcpt <> Some 1%Z ->
  let res := process env (wired p q r) th in
  settlements p (trace res) = [FulfilResponse ack] /\
  settlements q (trace res) = [FulfilReceipt rcpt] /\
  error_ (final_locals res) = Some TransactionReverted /\
  (Date_now env AtConfirmed <> 0%Z ->
   forall rec, In rec (records (trace res)) ->
               error rec = Some "transaction reverted") /\
  map nonce (forwarded (trace res)) = [Some n] /\
  this_nonce (final res) = (n + 1)%Z.
Proof.
  intros Hpq Hreach Hsafe Hack Hw Hst res.
  assert (Hs1 : status_is_not_1 rcpt = true).
  { unfold status_is_not_1. destruct (status rcpt) as [z|]; [|reflexivity].
    destruct (Z.eqb_spec z 1); [subst; contradiction | reflexivity]. }
  assert (Hqp : (q =? p)%nat = false) by (apply Nat.eqb_neq; congruence).
  assert (Hpq' : (p =? q)%nat = false) by (apply Nat.eqb_neq; congruence).
  subst res.
  to_submission Hreach;
    rewrite (timeoutAfter_acknowledged env ack _ Hack); cbn;
    rewrite Hw; cbn; rewrite Hs1; cbn;
    rewrite !Nat.eqb_refl, ?Hqp, ?Hpq', (number_add_safe _ Hsafe);
    finish_log env;
    (split; [reflexivity|]); (split; [reflexivity|]);
    (split; [reflexivity|]); (split; [|split; reflexivity]);
    intros Hclock rec Hin; try contradiction;
    destruct Hin as [<- | []];
    apply Z.eqb_neq in Hclock;
    unfold assemble, error_text, Error; cbn; rewrite Hclock; reflexivity.
Qed.

(** C2: when the balance check reports a balance below the floor, the
    submission future is rejected with the insufficient-balance error (and
    settled only once), nonce and last-transaction time are untouched, the
    low-balance notification fires exactly once, and the worker goes on to
    start the next queued request. *)
Theorem C2_insufficient_balance (env : Env) (r next : QueuedTxRequest)
  (others : list QueuedTxRequest) (p q : PromiseId) (th : TxExecutor)
  (b : Q) (a : nat) (h : list Event) :
  eth_getBalance env = Resolves b ->
  (b < MIN_BALANCE_ETH)%Q ->
  let res := process env (wired p q r) th in
  settlements p (trace res) = [RejectWith InsufficientBalance] /\
  final res = th /\
  notifications (trace res) = 1%nat /\
  steps
    {| this := th; concurrency := 1; waiting := next :: others;
       running := [start (wired p q r)]; allocated := a; history := h |}
    {| this := th; concurrency := 1; waiting := others;
       running := [start next]; allocated := a;
       history := h ++ trace res ++ called_back (outcome res) |}.
Proof.
  intros Hb Hlt res.
  apply Qlt_bool_true in Hlt.
  assert (Hres : settlements p (trace res) = [RejectWith InsufficientBalance]
                 /\ final res = th /\ notifications (trace res) = 1%nat
                 /\ outcome res <> Suspended).
  { subst res. unfold_execute. cbn. rewrite Hb. cbn. rewrite Hlt. cbn.
    rewrite Nat.eqb_refl.
    destruct (is_not_true _); cbn;
      [destruct (EventLogger_logEvent env); cbn|];
      repeat split; discriminate. }
  destruct Hres as (Hs & Hf & Hn & Ho).
  repeat split; try assumption.
  rewrite <- Hf at 2. apply worker_proceeds. exact Ho.
Qed.

(** C3 (amended): when no answer to the forwarded transaction arrives before
    the 30000 ms timeout elapses, the submission future is rejected with the
    timeout error, the last-transaction time is unchanged and the nonce is
    not incremented: it stays at the value [n] the transaction was forwarded
    with, which is the value before the request unless the staleness refresh
    replaced it; the worker goes on to the next queued request. *)
Theorem C3_submission_timeout (env : Env) (r next : QueuedTxRequest)
  (others : list QueuedTxRequest) (p q : PromiseId) (th : TxExecutor)
  (n : Z) (a : nat) (h : list Event) :
  reaches_submission env th n ->
  not_acknowledged_in_time env ->
  let res := process env (wired p q r) th in
  settlements p (trace res) = [RejectWith (SubmissionTimeout r)] /\
  this_nonce (final res) = n /\
  map nonce (forwarded (trace res)) = [Some n] /\
  this_lastTransaction (final res) = this_lastTransaction th /\
  steps
    {| this := th; concurrency := 1; waiting := next :: others;
       running := [start (wired p q r)]; allocated := a; history := h |}
    {| this := final res; concurrency := 1; waiting := others;
       running := [start next]; allocated := a;
       history := h ++ trace res ++ called_back (outcome res) |}.
Proof.
  intros Hreach Hlate res.
  assert (Hres : settlements p (trace res) = [RejectWith (SubmissionTimeout r)]
                 /\ this_nonce (final res) = n
                 /\ map nonce (forwarded (trace res)) = [Some n]
                 /\ this_lastTransaction (final res) = this_lastTransaction th
                 /\ outcome res <> Suspended).
  { subst res.
    to_submission Hreach;
      rewrite (timeoutAfter_late env _ Hlate); cbn;
      rewrite Nat.eqb_refl;
      finish_log env; repeat split; discriminate. }
  destruct Hres as (Hs & Hf & Hfw & Hl & Ho).
  repeat split; try assumption.
  apply worker_proceeds. exact Ho.
Qed.

(** ** Nonces along the queue *)

Lemma submitted_nonces_app (tr1 tr2 : list Event) :
  ends_forwarding tr1 = false ->
  submitted_nonces (tr1 ++ tr2) = (submitted_nonces tr1 ++ submitted_nonces tr2)%list.
Proof.
  induction tr1 as [|ev tr1 IH]; intro Hend; [reflexivity|].
  destruct tr1 as [|ev' tr1].
  - destruct ev; cbn in *; try reflexivity; discriminate.
  - assert (Hend' : ends_forwarding (ev' :: tr1) = false)
      by (destruct ev; exact Hend).
    specialize (IH Hend').
    change ((ev :: ev' :: tr1) ++ tr2)%list with (ev :: (ev' :: tr1) ++ tr2)%list.
    destruct ev; cbn [submitted_nonces]; try exact IH.
    cbn [app].
    destruct ev' as [p' [ | | ] | | | | ]; try exact IH.
    destruct (nonce overrides0); [|exact IH].
    cbn [app]. f_equal. exact IH.
Qed.

Lemma ends_forwarding_app (tr1 tr2 : list Event) :
  ends_forwarding tr1 = false -> ends_forwarding tr2 = false ->
  ends_forwarding (tr1 ++ tr2) = false.
Proof.
  intros H1 H2. induction tr1 as [|ev tr1 IH]; [exact H2|].
  destruct tr1 as [|ev' tr1].
  - destruct ev; cbn in *; try discriminate; destruct tr2; assumption.
  - assert (H1' : ends_forwarding (ev' :: tr1) = false)
      by (destruct ev; exact H1).
    specialize (IH H1').
    change ((ev :: ev' :: tr1) ++ tr2)%list with (ev :: (ev' :: tr1) ++ tr2)%list.
    cbn [app] in *. destruct ev; exact IH.
Qed.

Lemma called_back_quiet (o : Outcome unit) :
  ends_forwarding (called_back o) = false /\
  submitted_nonces (called_back o) = [].
Proof. destruct o; split; reflexivity. Qed.

(** [drain] is a behaviour of the queue: the single worker can take the
    steps that it computes. *)
Lemma drain_steps (others : list (QueuedTxRequest * Env)) :
  forall (v : QueuedTxRequest) (env : Env) (th : TxExecutor) (a : nat)
         (h : list Event),
    let d := drain th ((v, env) :: others) in
    exists run' wait',
      steps
        {| this := th; concurrency := 1; waiting := map fst others;
           running := [start v]; allocated := a; history := h |}
        {| this := fst d; concurrency := 1; waiting := wait';
           running := run'; allocated := a; history := h ++ snd d |}.
Proof.
  induction others as [|[v' env'] others IH]; intros v env th a h d;
    subst d; cbn [drain map fst].
  - set (res := process env v th).
    destruct (outcome res) eqn:Ho.
    + exists [], []. cbn [fst snd]. rewrite <- Ho, app_nil_r.
      apply (worker_calls_back env v [] th 1 a h). fold res. congruence.
    + exists [], []. cbn [fst snd]. rewrite <- Ho, app_nil_r.
      apply (worker_calls_back env v [] th 1 a h). fold res. congruence.
    + eexists _, _. cbn [fst snd].
      apply (run_steps env (execute v) th initial_locals v 1 [] a h).
  - set (res := process env v th).
    destruct (outcome res) eqn:Ho.
    + destruct (IH v' env' (final res) a
                  (h ++ trace res ++ called_back (outcome res))%list)
        as (run' & wait' & Hsteps).
      exists run', wait'. cbn [fst snd].
      eapply steps_trans.
      * apply (worker_proceeds env v v' (map fst others) th 1 a h).
        fold res. congruence.
      * fold res. rewrite <- Ho. rewrite <- !app_assoc in Hsteps.
        exact Hsteps.
    + destruct (IH v' env' (final res) a
                  (h ++ trace res ++ called_back (outcome res))%list)
        as (run' & wait' & Hsteps).
      exists run', wait'. cbn [fst snd].
      eapply steps_trans.
      * apply (worker_proceeds env v v' (map fst others) th 1 a h).
        fold res. congruence.
      * fold res. rewrite <- Ho. rewrite <- !app_assoc in Hsteps.
        exact Hsteps.
    + eexists _, _. cbn [fst snd].
      apply (run_steps env (execute v) th initial_locals v 1
               (v' :: map fst others) a h).
Qed.

(** One request forwards its transaction, if it gets that far, with the
    nonce [n] that the staleness check left: the local one or, if the
    nonce was stale, the network's.  If the transaction is acknowledged the
    nonce becomes [n + 1] as the addition on numbers computes it; otherwise
    it stays [n]. *)
Lemma nonce_step (env : Env) (r : QueuedTxRequest) (p q : PromiseId)
  (th : TxExecutor) :
  let res := process env (wired p q r) th in
  ends_forwarding (trace res) = false /\
  exists n,
    (n = this_nonce th \/
     (stale (Date_now env AtStaleCheck) (this_lastTransaction th) = true /\
      eth_getNonce env = Resolves n)) /\
    ((submitted_nonces (trace res) = [n] /\
      this_nonce (final res) = number_add n 1) \/
     (submitted_nonces (trace res) = [] /\
      this_nonce (final res) = n)).
Proof.
  intro res. subst res. unfold_execute.
  assert (Hsp : forall o n, nonce (spread_with_nonce o n) = Some n)
    by reflexivity.
  crawl_with ltac:(rewrite ?Hsp in *);
    (split; [reflexivity|]);
    (eexists; split;
     [|first [left; split; reflexivity | right; split; reflexivity]]);
    first [left; reflexivity | right; split; reflexivity].
Qed.

Lemma consecutive_nth (k : nat) :
  forall n i m, nth_error (consecutive n k) i = Some m ->
                m = (n + Z.of_nat i)%Z.
Proof.
  induction k as [|k IH]; intros n i m Hnth.
  - destruct i; discriminate.
  - destruct i as [|i]; cbn in Hnth.
    + injection Hnth as <-. lia.
    + apply IH in Hnth. lia.
Qed.

Lemma consecutive_length (k : nat) : forall n, length (consecutive n k) = k.
Proof.
  induction k as [|k IH]; intro n; cbn; [reflexivity|].
  rewrite IH. reflexivity.
Qed.

Lemma StronglySorted_lt_NoDup (l : list Z) :
  StronglySorted Z.lt l -> NoDup l.
Proof.
  induction 1 as [|a l _ IH Hall]; constructor; [|exact IH].
  intro Hin. rewrite Forall_forall in Hall. specialize (Hall a Hin). lia.
Qed.

(** The nonces that one request contributes, and what they give when the
    rest of the queue contributes [sn2] from the nonce the request leaves. *)
Lemma nonces_join (n0 n1 n2 : Z) (sn1 sn2 : list Z) :
  (n0 <= n1)%Z ->
  Forall (fun n => n0 <= n < n1)%Z sn1 ->
  StronglySorted Z.lt sn1 ->
  Forall (fun n => n1 <= n < n2)%Z sn2 ->
  StronglySorted Z.lt sn2 ->
  (n1 <= n2)%Z ->
  Forall (fun n => n0 <= n < n2)%Z (sn1 ++ sn2) /\
  StronglySorted Z.lt (sn1 ++ sn2) /\
  (n0 <= n2)%Z.
Proof.
  intros H01 Hb1 Hs1 Hb2 Hs2 H12.
  split; [|split; [|lia]].
  - apply Forall_app. split.
    + eapply Forall_impl; [|exact Hb1]. cbn. intros; lia.
    + eapply Forall_impl; [|exact Hb2]. cbn. intros; lia.
  - induction Hs1 as [|a l Hs1 IH Hall]; [exact Hs2|].
    inversion Hb1 as [|? ? Ha Hb1']; subst.
    cbn. constructor; [apply IH; exact Hb1'|].
    apply Forall_app. split; [exact Hall|].
    eapply Forall_impl; [|exact Hb2]. cbn. intros; lia.
Qed.

Lemma consecutive_join (k1 k2 : nat) :
  forall n,
    (consecutive n k1 ++ consecutive (n + Z.of_nat k1) k2)%list
    = consecutive n (k1 + k2).
Proof.
  induction k1 as [|k1 IHk]; intro n.
  - cbn. replace (n + 0)%Z with n by lia. reflexivity.
  - cbn [consecutive Nat.add app]. f_equal.
    rewrite <- IHk. do 2 f_equal. lia.
Qed.

Lemma drain_ends_forwarding (jobs : list (QueuedTxRequest * Env)) :
  forall th,
    Forall (fun j => exists p q r, fst j = wired p q r) jobs ->
    ends_forwarding (snd (drain th jobs)) = false.
Proof.
  induction jobs as [|[v env] others IH]; intros th Hw; [reflexivity|].
  inversion Hw as [|j l (p & q & r & Hv) Hw']; subst. cbn in Hv. subst v.
  pose proof (nonce_step env r p q th) as (Hend & _).
  destruct (called_back_quiet (outcome (process env (wired p q r) th)))
    as [Hcq _].
  cbn [drain].
  destruct (outcome (process env (wired p q r) th)); cbn [snd];
    try exact Hend;
    (apply ends_forwarding_app; [exact Hend|]);
    (apply ends_forwarding_app; [exact Hcq | apply IH; exact Hw']).
Qed.

(** The nonces of a queue are those of its first request followed by those
    of the rest, which starts from the state the first request leaves. *)
Lemma drain_cons_nonces (env : Env) (r : QueuedTxRequest) (p q : PromiseId)
  (others : list (QueuedTxRequest * Env)) (th : TxExecutor) :
  Forall (fun j => exists p q r, fst j = wired p q r) others ->
  let res := process env (wired p q r) th in
  let d := drain th ((wired p q r, env) :: others) in
  (outcome res = Suspended /\
   submitted_nonces (snd d) = submitted_nonces (trace res) /\
   fst d = final res) \/
  (submitted_nonces (snd d)
   = (submitted_nonces (trace res)
        ++ submitted_nonces (snd (drain (final res) others)))%list /\
   fst d = fst (drain (final res) others)).
Proof.
  intros Hw res d. subst d. cbn [drain]. fold res.
  pose proof (nonce_step env r p q th) as (Hend & _). fold res in Hend.
  destruct (called_back_quiet (outcome res)) as [Hcq Hcn].
  pose proof (drain_ends_forwarding others (final res) Hw) as Hrest.
  destruct (outcome res) eqn:Ho;
    [right | right | left; repeat split; reflexivity];
    cbn [fst snd]; (split; [|reflexivity]);
    rewrite !submitted_nonces_app, Hcn
      by (try apply ends_forwarding_app; assumption);
    reflexivity.
Qed.

Lemma drain_nonces (jobs : list (QueuedTxRequest * Env)) :
  forall th,
    Forall (fun j => exists p q r, fst j = wired p q r) jobs ->
    Forall safe_integer (submitted_nonces (snd (drain th jobs))) ->
    refresh_not_behind th jobs ->
    let sn := submitted_nonces (snd (drain th jobs)) in
    let last := this_nonce (fst (drain th jobs)) in
    Forall (fun n => this_nonce th <= n < last)%Z sn /\
    StronglySorted Z.lt sn /\
    (this_nonce th <= last)%Z /\
    (refresh_agrees th jobs ->
     sn = consecutive (this_nonce th) (length sn) /\
     last = (this_nonce th + Z.of_nat (length sn))%Z).
Proof.
  induction jobs as [|[v env] others IH]; intros th Hw Hsafe Hnb sn last.
  - subst sn last. cbn. repeat split; try constructor; lia.
  - inversion Hw as [|j l (p & q & r & Hv) Hw']; subst. cbn in Hv. subst v.
    destruct Hnb as [Hnb Hnb'].
    pose proof (nonce_step env r p q th) as (_ & n & Hn & Hstep).
    set (res := process env (wired p q r) th) in *.
    (* what the request itself contributes *)
    assert (Hone : Forall safe_integer (submitted_nonces (trace res)) ->
               Forall (fun m => this_nonce th <= m < this_nonce (final res))%Z
                 (submitted_nonces (trace res)) /\
               StronglySorted Z.lt (submitted_nonces (trace res)) /\
               (this_nonce th <= this_nonce (final res))%Z /\
               ((stale (Date_now env AtStaleCheck) (this_lastTransaction th)
                 = true ->
                 forall m, eth_getNonce env = Resolves m ->
                           m = this_nonce th) ->
                submitted_nonces (trace res)
                = consecutive (this_nonce th)
                    (length (submitted_nonces (trace res))) /\
                this_nonce (final res)
                = (this_nonce th
                   + Z.of_nat (length (submitted_nonces (trace res))))%Z)).
    { intro Hs1.
      assert (Hle : (this_nonce th <= n)%Z).
      { destruct Hn as [-> | [Hst Hnet]]; [lia|]. exact (Hnb Hst n Hnet). }
      assert (Heq : (stale (Date_now env AtStaleCheck)
                       (this_lastTransaction th) = true ->
                     forall m, eth_getNonce env = Resolves m ->
                               m = this_nonce th) ->
                    n = this_nonce th).
      { intro Hag. destruct Hn as [-> | [Hst Hnet]]; [reflexivity|].
        exact (Hag Hst n Hnet). }
      destruct Hstep as [[Hs Hf] | [Hs Hf]]; rewrite Hs in *.
      - inversion Hs1 as [|? ? Hsn _]; subst.
        rewrite (number_add_safe n Hsn) in Hf. rewrite Hf.
        split; [constructor; [lia | constructor]|].
        split; [repeat constructor|]. split; [lia|].
        intro Hag. rewrite (Heq Hag). split; [reflexivity | cbn; lia].
      - rewrite Hf.
        split; [constructor|]. split; [constructor|]. split; [lia|].
        intro Hag. rewrite (Heq Hag). split; [reflexivity | cbn; lia]. }
    subst sn last.
    destruct (drain_cons_nonces env r p q others th Hw')
      as [(_ & Hsn & Hfst) | (Hsn & Hfst)];
      fold res in Hsn, Hfst; rewrite Hsn, Hfst in *; clear Hsn Hfst.
    + destruct (Hone Hsafe) as (Hb1 & Hs1 & Hl1 & Hag1).
      split; [exact Hb1|]. split; [exact Hs1|]. split; [exact Hl1|].
      intros [Hag _]. exact (Hag1 Hag).
    + apply Forall_app in Hsafe. destruct Hsafe as [Hsafe1 Hsafe2].
      destruct (Hone Hsafe1) as (Hb1 & Hs1 & Hl1 & Hag1).
      destruct (IH (final res) Hw' Hsafe2 Hnb') as (Hb2 & Hs2 & Hl2 & Hag2).
      destruct (nonces_join _ _ _ _ _ Hl1 Hb1 Hs1 Hb2 Hs2 Hl2)
        as (Hb & Hs & Hl).
      split; [exact Hb|]. split; [exact Hs|]. split; [exact Hl|].
      intros [Hag Hag'].
      destruct (Hag1 Hag) as [Hc1 Hf1].
      destruct (Hag2 Hag') as [Hc2 Hf2].
      rewrite length_app. split.
      * rewrite <- consecutive_join. rewrite <- Hc1.
        rewrite Hf1 in Hc2. rewrite <- Hc2. reflexivity.
      * rewrite Hf2, Hf1, Nat2Z.inj_add. lia.
Qed.

Lemma drain_nonce_le (jobs : list (QueuedTxRequest * Env)) :
  forall th,
    Forall (fun j => exists p q r, fst j = wired p q r) jobs ->
    Forall (fun n => (0 <= n)%Z /\ representable n)
      (submitted_nonces (snd (drain th jobs))) ->
    refresh_not_behind th jobs ->
    (this_nonce th <= this_nonce (fst (drain th jobs)))%Z.
Proof.
  induction jobs as [|[v env] others IH]; intros th Hw Hnum Hnb.
  - cbn. lia.
  - inversion Hw as [|j l (p & q & r & Hv) Hw']; subst. cbn in Hv. subst v.
    destruct Hnb as [Hnb Hnb'].
    pose proof (nonce_step env r p q th) as (_ & n & Hn & Hstep).
    set (res := process env (wired p q r) th) in *.
    assert (Hle : (this_nonce th <= n)%Z).
    { destruct Hn as [-> | [Hst Hnet]]; [lia|]. exact (Hnb Hst n Hnet). }
    assert (Hone : Forall (fun n => (0 <= n)%Z /\ representable n)
                     (submitted_nonces (trace res)) ->
                   (this_nonce th <= this_nonce (final res))%Z).
    { intro Hnum1. destruct Hstep as [[Hs Hf] | [Hs Hf]]; rewrite Hf; [|lia].
      rewrite Hs in Hnum1. inversion Hnum1 as [|? ? [Hpos Hrep] _]; subst.
      pose proof (number_add_1_le n Hpos Hrep). lia. }
    destruct (drain_cons_nonces env r p q others th Hw')
      as [(_ & Hsn & Hfst) | (Hsn & Hfst)];
      fold res in Hsn, Hfst; rewrite Hsn in Hnum; rewrite Hfst.
    + exact (Hone Hnum).
    + apply Forall_app in Hnum. destruct Hnum as [Hnum1 Hnum2].
      specialize (IH (final res) Hw' Hnum2 Hnb').
      specialize (Hone Hnum1). lia.
Qed.

(** C4 (amended): along any sequence of processed requests in which no
    staleness refresh returns a value below the nonce that the executor
    holds, the nonce does not end lower than it started.  If moreover the
    nonces of the acknowledged transactions are safe integers, these nonces
    increase strictly from one successful submission to the next (so no two
    are the same) and lie between the initial and the final nonce.  If
    moreover every refresh returns exactly the nonce held, the k-th
    successful submission carries the initial nonce plus the number of
    earlier successful submissions. *)
Theorem C4_nonce_sequence (jobs : list (QueuedTxRequest * Env))
  (th : TxExecutor) :
  Forall (fun j => exists p q r, fst j = wired p q r) jobs ->
  let d := drain th jobs in
  Forall (fun n => (0 <= n)%Z /\ representable n) (submitted_nonces (snd d)) ->
  refresh_not_behind th jobs ->
  (this_nonce th <= this_nonce (fst d))%Z /\
  (Forall safe_integer (submitted_nonces (snd d)) ->
   StronglySorted Z.lt (submitted_nonces (snd d)) /\
   NoDup (submitted_nonces (snd d)) /\
   (forall n, In n (submitted_nonces (snd d)) ->
              (this_nonce th <= n < this_nonce (fst d))%Z) /\
   (refresh_agrees th jobs ->
    (forall k n, nth_error (submitted_nonces (snd d)) k = Some n ->
                 n = (this_nonce th + Z.of_nat k)%Z) /\
    this_nonce (fst d)
    = (this_nonce th + Z.of_nat (length (submitted_nonces (snd d))))%Z)).
Proof.
  intros Hw d Hnum Hnb.
  split; [exact (drain_nonce_le jobs th Hw Hnum Hnb)|].
  intro Hsafe.
  destruct (drain_nonces jobs th Hw Hsafe Hnb) as (Hb & Hs & Hl & Hag).
  fold d in Hb, Hs, Hl, Hag.
  split; [exact Hs|].
  split; [apply StronglySorted_lt_NoDup; exact Hs|].
  split; [intros n Hin; rewrite Forall_forall in Hb; exact (Hb n Hin)|].
  intro Hagree. destruct (Hag Hagree) as [Hc Hf].
  split; [|exact Hf].
  intros k n Hnth. rewrite Hc in Hnth. exact (consecutive_nth _ _ _ _ Hnth).
Qed.

(** ** The queue is served in order *)

Section Order.

(** Follows every path through [execute] until a submission callback is
    called. *)
Ltac walk :=
  repeat (cbn;
          match goal with
          | |- forall _ : Env, _ => intros ? ?
          | |- _ \/ _ =>
              first [ left; rewrite ?Nat.eqb_refl; discriminate | right ]
          | |- True => exact I
          | |- context [await ?x] => destruct x
          | |- context [complete ?x] => destruct x
          | |- context [if ?b then _ else _] => destruct b
          | |- context [match ?x with _ => _ end] => destruct x
          end).

Lemma execute_will_settle (p q : PromiseId) (r : QueuedTxRequest) :
  will_settle p initial_locals (execute (wired p q r)).
Proof.
  unfold_execute. walk.
Qed.

(** Follows every path through [execute] to its end. *)
Ltac walk_only :=
  repeat (cbn;
          match goal with
          | |- forall _ : Env, _ => intros ? ?
          | |- _ /\ _ => split
          | |- forall _ _, False -> _ => intros ? ? []
          | |- forall _ _, _ \/ False -> _ =>
              let E := fresh in
              intros ? ? [E | []];
              first [discriminate E | injection E as <- _; auto]
          | |- True => exact I
          | |- context [await ?x] => destruct x
          | |- context [complete ?x] => destruct x
          | |- context [if ?b then _ else _] => destruct b
          | |- context [match ?x with _ => _ end] => destruct x
          end).

Lemma execute_settles_only (p q : PromiseId) (r : QueuedTxRequest) :
  settles_only p q initial_locals (execute (wired p q r)).
Proof.
  unfold_execute. walk_only.
Qed.

Lemma settlements_app (p : PromiseId) (a b : list Event) :
  settlements p (a ++ b) = (settlements p a ++ settlements p b)%list.
Proof.
  induction a as [|ev a IH]; [reflexivity|].
  destruct ev as [p' s | | | |]; cbn; try exact IH.
  destruct (p' =? p)%nat; cbn; [f_equal|]; exact IH.
Qed.

Lemma settled_app_l (p : PromiseId) (a b : list Event) :
  settlements p a <> [] -> settlements p (a ++ b) <> [].
Proof.
  rewrite settlements_app. destruct (settlements p a); [contradiction|].
  discriminate.
Qed.

Lemma settled_app_r (p : PromiseId) (a b : list Event) :
  settlements p b <> [] -> settlements p (a ++ b) <> [].
Proof.
  rewrite settlements_app. intros Hb Happ.
  apply app_eq_nil in Happ. destruct Happ as [_ Happ]. contradiction.
Qed.

Lemma noop_no_settle (err : option JsError) (p : PromiseId) (s : Settlement) :
  ~ In (Settle p s) (noop err).
Proof. destruct err; cbn; [intros [Hd | []]; discriminate | intros []]. Qed.

Lemma queued_from_snoc (w : list QueuedTxRequest) :
  forall k v, queued_from k w -> kth_request (k + length w) v ->
              queued_from k (w ++ [v]).
Proof.
  induction w as [|v' w IH]; intros k v Hq Hv; cbn in *.
  - rewrite Nat.add_0_r in Hv. split; [exact Hv | exact I].
  - destruct Hq as [Hv' Hq]. split; [exact Hv'|].
    apply IH; [exact Hq|].
    replace (S k + length w)%nat with (k + S (length w))%nat by lia.
    exact Hv.
Qed.

Lemma shape_constructor (env0 : Env) (nonce0 : Z) :
  shape 0 (constructor env0 nonce0).
Proof.
  unfold shape. cbn. repeat split.
  - intros k Hk. lia.
  - intros p s [].
Qed.

Lemma start_will_settle (k : nat) (v : QueuedTxRequest) :
  kth_request k v ->
  will_settle (submitted_of k) (frame (start v)) (rest (start v)) /\
  settles_only (submitted_of k) (confirmed_of k)
    (frame (start v)) (rest (start v)).
Proof.
  intros [r ->]. split.
  - apply execute_will_settle.
  - apply execute_settles_only.
Qed.

#[local] Arguments start : simpl never.
#[local] Arguments submitted_of : simpl never.
#[local] Arguments confirmed_of : simpl never.
#[local] Arguments will_settle : simpl never.
#[local] Arguments settles_only : simpl never.
#[local] Arguments settlements : simpl never.

Lemma makeRequest_pushes (cfg : Config) (ty : EthTxType) (aid : string)
  (ct : Contract) (ar : list Arg) (ov : option TransactionRequest)
  (sl : option SnarkLogData) :
  exists r,
    snd (makeRequest ty aid ct ar ov sl cfg)
    = push (wired (allocated cfg) (S (allocated cfg)) r)
        {| this := this cfg; concurrency := concurrency cfg;
           waiting := waiting cfg; running := running cfg;
           allocated := S (S (allocated cfg)); history := history cfg |}.
Proof.
  exists {| onSubmissionError := fun _ => BalanceEmpty;
            onReceiptError := fun _ => BalanceEmpty;
            onTransactionResponse := fun _ => BalanceEmpty;
            onTransactionReceipt := fun _ => BalanceEmpty;
            type := ty; actionId := aid; contract := ct; args := ar;
            overrides :=
              match ov with Some o => o | None => default_overrides end;
            snarkLogs := sl |}.
  reflexivity.
Qed.

Lemma shape_step (cfg cfg' : Config) (d : nat) :
  shape d cfg -> step cfg cfg' -> exists d', shape d' cfg'.
Proof.
  intros (Hc & Hdone & Hrun) Hstep.
  destruct Hstep as [cfg ty aid ct ar ov sl | cfg i t env X c k Hnth Hrest e
                    | cfg i t err Hnth Hfin].
  - (* makeRequest *)
    exists d.
    destruct (makeRequest_pushes cfg ty aid ct ar ov sl) as [r ->].
    unfold push. cbn [running concurrency]. rewrite Hc.
    destruct (running cfg) as [|t [|t' ts]] eqn:Er; [| |contradiction].
    + destruct Hrun as (Hw & Ha & Hb).
      assert (Hk : kth_request d (wired (allocated cfg) (S (allocated cfg)) r)).
      { rewrite Ha. exists r. reflexivity. }
      destruct (start_will_settle d _ Hk) as [Hws Hso].
      unfold shape. cbn. rewrite Hw.
      split; [reflexivity|]. split; [exact Hdone|]. split; [exact Hk|].
      split; [right; exact Hws|]. split; [exact Hso|].
      split; [exact I|]. split.
      * rewrite Ha. unfold submitted_of. cbn. lia.
      * intros p s Hin. apply Hb in Hin. unfold submitted_of in *. lia.
    + destruct Hrun as (Hv & Hws & Hso & Hq & Ha & Hb).
      unfold shape. cbn.
      split; [reflexivity|]. split; [exact Hdone|]. split; [exact Hv|].
      split; [exact Hws|]. split; [exact Hso|]. split; [|split; [|exact Hb]].
      * apply queued_from_snoc; [exact Hq|].
        rewrite Ha. exists r. reflexivity.
      * rewrite length_app. cbn. rewrite Ha. unfold submitted_of. lia.
  - (* a call of the running invocation *)
    exists d.
    destruct (running cfg) as [|t0 [|t' ts]] eqn:Er; [| |contradiction].
    { destruct i; discriminate. }
    destruct i as [|i]; [|destruct i; discriminate].
    cbn in Hnth. injection Hnth as ->.
    destruct Hrun as (Hv & Hws & Hso & Hq & Ha & Hb).
    rewrite Hrest in Hws, Hso.
    pose proof (Hso env (this cfg)) as [Hown Hso'].
    unfold shape. cbn.
    split; [exact Hc|].
    split; [intros j Hj; apply settled_app_l, Hdone, Hj|].
    split; [exact Hv|].
    split.
    { destruct Hws as [Hws | Hws]; [left; apply settled_app_l, Hws|].
      destruct (Hws env (this cfg)) as [Hnow | Hlater].
      - left. apply settled_app_r. exact Hnow.
      - right. exact Hlater. }
    split; [exact Hso'|]. split; [exact Hq|]. split; [exact Ha|].
    intros p s Hin. apply in_app_or in Hin. destruct Hin as [Hin | Hin].
    + apply Hb in Hin. exact Hin.
    + apply Hown in Hin. unfold submitted_of, confirmed_of in *. lia.
  - (* the running invocation calls back *)
    exists (S d).
    destruct (running cfg) as [|t0 [|t' ts]] eqn:Er; [| |contradiction].
    { destruct i; discriminate. }
    destruct i as [|i]; [|destruct i; discriminate].
    cbn in Hnth. injection Hnth as ->.
    destruct Hrun as (Hv & Hws & Hso & Hq & Ha & Hb).
    assert (Hset : settlements (submitted_of d) (history cfg) <> []).
    { destruct Hws as [Hws | Hws]; [exact Hws|].
      destruct (rest t); try contradiction; discriminate. }
    assert (Hdone' : forall j, (j < S d)%nat ->
               settlements (submitted_of j) (history cfg ++ noop err) <> []).
    { intros j Hj. apply settled_app_l.
      destruct (Nat.eq_dec j d) as [-> | Hne]; [exact Hset|].
      apply Hdone. lia. }
    assert (Hb' : forall p s, In (Settle p s) (history cfg ++ noop err) ->
                              (p < submitted_of (S d))%nat).
    { intros p s Hin. apply in_app_or in Hin. destruct Hin as [Hin | Hin].
      - apply Hb in Hin. exact Hin.
      - exfalso. exact (noop_no_settle _ _ _ Hin). }
    unfold release. cbn [waiting].
    destruct (waiting cfg) as [|next others] eqn:Ew.
    + unfold shape. cbn. cbn in Ha. rewrite Nat.add_0_r in Ha.
      split; [exact Hc|]. split; [exact Hdone'|]. split; [reflexivity|].
      split; [exact Ha | exact Hb'].
    + destruct Hq as [Hnext Hq].
      destruct (start_will_settle (S d) next Hnext) as [Hws' Hso'].
      unfold shape. cbn.
      split; [exact Hc|]. split; [exact Hdone'|]. split; [exact Hnext|].
      split; [right; exact Hws'|]. split; [exact Hso'|].
      split; [exact Hq|]. split.
      * rewrite Ha. cbn [length]. f_equal. lia.
      * intros p s Hin. apply Hb' in Hin. unfold submitted_of in *. lia.
Qed.

Lemma shape_steps (env0 : Env) (nonce0 : Z) (cfg : Config) :
  steps (constructor env0 nonce0) cfg -> exists d, shape d cfg.
Proof.
  intro Hs.
  remember (constructor env0 nonce0) as cfg0 eqn:E0.
  induction Hs as [cfg | cfg1 cfg2 cfg3 Hs IH Hstep]; subst.
  - exists O. apply shape_constructor.
  - destruct (IH eq_refl) as [d Hd]. exact (shape_step _ _ _ Hd Hstep).
Qed.

Lemma settled_In (p : PromiseId) (h : list Event) :
  settlements p h <> [] -> exists s, In (Settle p s) h.
Proof.
  induction h as [|ev h IH]; intro Hs; [contradiction|].
  destruct ev as [p' s | | | |];
    try (destruct (IH Hs) as [s' Hin]; exists s'; right; exact Hin).
  unfold settlements in Hs. fold settlements in Hs.
  destruct (Nat.eqb_spec p' p) as [-> | Hne].
  - exists s. left. reflexivity.
  - destruct (IH Hs) as [s' Hin]. exists s'. right. exact Hin.
Qed.

Lemma kth_request_inj (a b : nat) (v : QueuedTxRequest) :
  kth_request a v -> kth_request b v -> a = b.
Proof.
  intros [r1 ->] [r2 Heq].
  apply (f_equal (fun v => onSubmissionError v (Error ""))) in Heq.
  cbn in Heq. injection Heq as Heq. unfold submitted_of in Heq. lia.
Qed.

(** C5: in every state that the executor can reach from its construction,
    whatever callers enqueue and whenever the collaborators answer, at most
    one request is being processed; a request's submission future is
    settled only when the submission futures of all requests enqueued before
    it are settled; the request being processed is preceded only by
    requests whose submission future is settled and followed, in the waiting
    list, by the later requests in the order they were enqueued; every
    request made so far is accounted for (its submission future is settled,
    or it is running, or it waits); and a further [makeRequest] hands out
    the next two futures and starts the request at once if the queue is
    idle and otherwise appends it to the waiting list. *)
Theorem C5_fifo_single_worker (env0 : Env) (nonce0 : Z) (cfg : Config) :
  steps (constructor env0 nonce0) cfg ->
  (length (running cfg) <= 1)%nat /\
  (forall a b, (a < b)%nat ->
     settlements (submitted_of b) (history cfg) <> [] ->
     settlements (submitted_of a) (history cfg) <> []) /\
  (forall t b, In t (running cfg) -> kth_request b (value_ t) ->
     (forall a, (a < b)%nat ->
        settlements (submitted_of a) (history cfg) <> []) /\
     queued_from (S b) (waiting cfg)) /\
  exists done,
    (forall a, (a < done)%nat ->
       settlements (submitted_of a) (history cfg) <> []) /\
    (forall t, In t (running cfg) -> kth_request done (value_ t)) /\
    let made := (done + length (running cfg) + length (waiting cfg))%nat in
    allocated cfg = submitted_of made /\
    forall type_ actionId_ contract_ args_ overrides_ snarkLogs_,
      let result :=
        makeRequest type_ actionId_ contract_ args_ overrides_ snarkLogs_
          cfg in
      submitted (fst result) = submitted_of made /\
      confirmed (fst result) = confirmed_of made /\
      exists v,
        kth_request made v /\
        type v = type_ /\ actionId v = actionId_ /\
        contract v = contract_ /\ args v = args_ /\
        snarkLogs v = snarkLogs_ /\
        match running cfg with
        | [] =>
            running (snd result) = [start v] /\ waiting (snd result) = []
        | _ :: _ =>
            running (snd result) = running cfg /\
            waiting (snd result) = (waiting cfg ++ [v])%list
        end.
Proof.
  intro Hs. destruct (shape_steps env0 nonce0 cfg Hs) as (d & Hc & Hdone & Hrun).
  assert (Hmake : forall k, allocated cfg = submitted_of k ->
            (length (running cfg) <= 1)%nat ->
            (running cfg = [] -> waiting cfg = []) ->
            forall type_ actionId_ contract_ args_ overrides_ snarkLogs_,
              let result :=
                makeRequest type_ actionId_ contract_ args_ overrides_
                  snarkLogs_ cfg in
              submitted (fst result) = submitted_of k /\
              confirmed (fst result) = confirmed_of k /\
              exists v,
                kth_request k v /\
                type v = type_ /\ actionId v = actionId_ /\
                contract v = contract_ /\ args v = args_ /\
                snarkLogs v = snarkLogs_ /\
                match running cfg with
                | [] =>
                    running (snd result) = [start v] /\
                    waiting (snd result) = []
                | _ :: _ =>
                    running (snd result) = running cfg /\
                    waiting (snd result) = (waiting cfg ++ [v])%list
                end).
  { intros k Hk Hlen Hidle ty aid ct ar ov sl result. subst result.
    unfold makeRequest, deferred, push. cbn. rewrite Hc, Hk.
    split; [reflexivity|]. split; [reflexivity|].
    exists (wired (submitted_of k) (confirmed_of k)
              {| onSubmissionError := fun _ => BalanceEmpty;
                 onReceiptError := fun _ => BalanceEmpty;
                 onTransactionResponse := fun _ => BalanceEmpty;
                 onTransactionReceipt := fun _ => BalanceEmpty;
                 type := ty; actionId := aid; contract := ct; args := ar;
                 overrides :=
                   match ov with
                   | Some o => o
                   | None => default_overrides
                   end;
                 snarkLogs := sl |}).
    split; [eexists; reflexivity|].
    do 5 (split; [reflexivity|]).
    destruct (running cfg) as [|t [|t' ts]]; cbn in *;
      [rewrite (Hidle eq_refl) | | lia]; split; reflexivity. }
  destruct (running cfg) as [|t [|t' ts]] eqn:Er; [| |contradiction].
  - destruct Hrun as (Hw & Ha & Hb).
    split; [cbn; lia|]. split; [|split; [intros t b []|]].
    + intros a b Hab Hsb. apply settled_In in Hsb. destruct Hsb as [s Hin].
      apply Hb in Hin. apply Hdone. unfold submitted_of in Hin. lia.
    + exists d. split; [exact Hdone|]. split; [intros t []|].
      rewrite Hw. cbn [length]. rewrite !Nat.add_0_r.
      split; [exact Ha|].
      apply (Hmake d Ha); [cbn; lia | intros _; exact Hw].
  - destruct Hrun as (Hv & Hws & Hso & Hq & Ha & Hb).
    split; [cbn; lia|]. split; [|split].
    + intros a b Hab Hsb. apply settled_In in Hsb. destruct Hsb as [s Hin].
      apply Hb in Hin. apply Hdone. unfold submitted_of in Hin. lia.
    + intros t0 b [<- | []] Hk.
      rewrite (kth_request_inj b d _ Hk Hv).
      split; [exact Hdone | exact Hq].
    + exists d. split; [exact Hdone|].
      split; [intros t0 [<- | []]; exact Hv|].
      cbn [length].
      replace (d + 1 + length (waiting cfg))%nat
        with (S d + length (waiting cfg))%nat by lia.
      split; [exact Ha|].
      apply (Hmake _ Ha); [cbn; lia | discriminate].
Qed.

End Order.

(** ** Staleness, instrumentation and overrides *)




(** C7 (amended): whatever the collaborators answer, as long as the
    promises awaited without a timeout settle, processing a request comes to
    an end, no error of the try block escapes [execute] (only a throwing
    instrumentation sink makes it reject, which the callback swallows),
    exactly one record is
    handed to the sink unless the account opted out, the worker then releases
    the slot, and the behaviour of the sink changes nothing of what was done
    to the request's futures and to the nonce. *)
Theorem C7_errors_contained (env : Env) (r : QueuedTxRequest)
  (p q : PromiseId) (th : TxExecutor) (w : list QueuedTxRequest)
  (a : nat) (h : list Event) :
  responsive env ->
  let res := process env (wired p q r) th in
  outcome res <> Suspended /\
  (forall e, outcome res = Threw e -> EventLogger_logEvent env = Throws e) /\
  records (trace res) =
    (if is_not_true (localStorage_getItem env (optout_key (eth_getAddress env)))
     then [assemble (wired p q r) (Date_now env AtExecCalled)
             (final_locals res) (eth_getRpcEndpoint env) (eth_getAddress env)]
     else []) /\
  (forall c, trace (process (with_sink env c) (wired p q r) th) = trace res
             /\ final (process (with_sink env c) (wired p q r) th)
                = final res) /\
  steps
    {| this := th; concurrency := 1; waiting := w;
       running := [start (wired p q r)]; allocated := a; history := h |}
    (release
       {| this := final res; concurrency := 1; waiting := w;
          running := []; allocated := a;
          history := h ++ trace res ++ called_back (outcome res) |}).
Proof.
  intros (Hb & Hn & Hg & Hp & Hw) res.
  assert (Hres : outcome res <> Suspended).
  { subst res. unfold_execute. crawl; congruence. }
  split; [exact Hres|].
  split.
  { subst res. clear Hres. unfold_execute. crawl; congruence. }
  split.
  { subst res. clear Hres. unfold_execute. crawl; try reflexivity; try congruence. }
  split.
  { intro c. subst res. clear Hres. unfold_execute.
    crawl; split; reflexivity. }
  apply worker_calls_back. exact Hres.
Qed.


Lemma append_inj_l (s a b : string) : s ++ a = s ++ b -> a = b.
Proof.
  induction s as [|c s IH]; cbn; intro Heq.
  - exact Heq.
  - injection Heq as Heq. apply IH. exact Heq.
Qed.

Lemma optout_key_inj (a b : string) : optout_key a = optout_key b -> a = b.
Proof. unfold optout_key. apply append_inj_l. Qed.

Lemma is_not_true_true (v : option string) :
  v <> Some "true" -> is_not_true v = true.
Proof.
  destruct v as [s|]; [|reflexivity]. intro Hv. unfold is_not_true.
  destruct (String.eqb_spec s "true"); [subst; contradiction | reflexivity].
Qed.

(** C9: with the opt-out flag of account A set and that of account B not
    set, no record is emitted while requests of A are processed, exactly one
    record (carrying B's address) is emitted for a request of B, and the
    processing of B's request is the same whatever the value of A's flag. *)
Theorem C9_optout_isolated (env : Env) (r : QueuedTxRequest) (p q : PromiseId)
  (th : TxExecutor) (A B : string) :
  A <> B ->
  localStorage_getItem env (optout_key A) = Some "true" ->
  localStorage_getItem env (optout_key B) <> Some "true" ->
  responsive env ->
  records (trace (process (with_address env A) (wired p q r) th)) = [] /\
  (exists rec,
     records (trace (process (with_address env B) (wired p q r) th)) = [rec]
     /\ user_address rec = B) /\
  (forall v,
     process (with_address (with_item env (optout_key A) v) B) (wired p q r) th
     = process (with_address env B) (wired p q r) th).
Proof.
  intros HAB HA HB (Hb & Hn & Hg & Hp & Hw).
  apply is_not_true_true in HB.
  split; [|split].
  - unfold_execute. crawl; try reflexivity;
      rewrite HA in *; discriminate.
  - unfold_execute. crawl; try congruence;
      eexists; (split; [reflexivity|]); reflexivity.
  - intro v.
    assert (Hne : (optout_key B =? optout_key A)%string = false).
    { apply String.eqb_neq. intro Heq. apply HAB. symmetry.
      apply optout_key_inj. exact Heq. }
    unfold_execute. crawl_with ltac:(rewrite ?Hne in *); congruence.
Qed.

(** C10: a call of [makeRequest] without the [overrides] argument pushes a
    request whose overrides are gasPrice 1000000000 and gasLimit 2000000; at
    submission the overrides of a request are passed on with the nonce field
    set to the executor's nonce, whatever nonce the caller supplied. *)
Theorem C10_default_overrides (cfg : Config) (type_ : EthTxType)
  (actionId_ : string) (contract_ : Contract) (args_ : list Arg)
  (snarkLogs_ : option SnarkLogData) (env : Env) (th : TxExecutor) (n : Z)
  (r : QueuedTxRequest) (p q : PromiseId) :
  reaches_submission env th n ->
  let req :=
    wired (allocated cfg) (S (allocated cfg))
      {| onSubmissionError := fun _ => BalanceEmpty;
         onReceiptError := fun _ => BalanceEmpty;
         onTransactionResponse := fun _ => BalanceEmpty;
         onTransactionReceipt := fun _ => BalanceEmpty;
         type := type_; actionId := actionId_; contract := contract_;
         args := args_; overrides := default_overrides;
         snarkLogs := snarkLogs_ |} in
  snd (makeRequest type_ actionId_ contract_ args_ None snarkLogs_ cfg)
  = push req
      {| this := this cfg; concurrency := concurrency cfg;
         waiting := waiting cfg; running := running cfg;
         allocated := S (S (allocated cfg)); history := history cfg |} /\
  forwarded (trace (process env req th))
  = [{| to := None; from := None; nonce := Some n;
        gasLimit := Some 2000000%Z; gasPrice := Some 1000000000%Z;
        data := None; value := None; chainId := None |}] /\
  forwarded (trace (process env (wired p q r) th))
  = [{| to := to (overrides r); from := from (overrides r); nonce := Some n;
        gasLimit := gasLimit (overrides r); gasPrice := gasPrice (overrides r);
        data := data (overrides r); value := value (overrides r);
        chainId := chainId (overrides r) |}].
Proof.
  intros Hreach req.
  split; [reflexivity|].
  assert (Hfw : forall p' q' r',
            forwarded (trace (process env (wired p' q' r') th))
            = [spread_with_nonce (overrides r') n]).
  { intros p' q' r'. to_submission Hreach; crawl; reflexivity. }
  split.
  - subst req. rewrite Hfw. reflexivity.
  - rewrite Hfw. reflexivity.
Qed.

(** ** Further behaviour of [execute] and of the queue *)

Lemma Qlt_bool_not (x y : Q) : Qlt_bool x y = false -> ~ (x < y)%Q.
Proof.
  unfold Qlt_bool. intros Hb Hlt.
  destruct (Qle_bool y x) eqn:E; [|discriminate].
  apply Qle_bool_iff in E. exact (Qlt_not_le _ _ Hlt E).
Qed.

(** X1: when the player's confirmation is refused (the promise of the
    confirmation window rejects with [e]) after the balance and staleness
    checks have passed, the submission future is rejected with [e] and
    nothing else is settled, nothing is forwarded to the network, [e] is
    printed once, the nonce is the one the staleness check left and
    [lastTransaction] is untouched. *)
Theorem gate_denied (env : Env) (r : QueuedTxRequest) (p q : PromiseId)
  (th : TxExecutor) (n : Z) (e : JsError) :
  reaches_gate env th n ->
  openConfirmationWindowForTransaction env = Rejects e ->
  let res := process env (wired p q r) th in
  settles (trace res) = [(p, RejectWith e)] /\
  forwarded (trace res) = [] /\
  console_errors (trace res) = [e] /\
  this_nonce (final res) = n /\
  this_lastTransaction (final res) = this_lastTransaction th /\
  outcome res <> Suspended.
Proof.
  intros ((b & Hb & Hlow) & Hn) Hg res. subst res.
  apply Qlt_bool_false in Hlow.
  unfold_execute; cbn; rewrite Hb; cbn; rewrite Hlow; cbn.
  destruct (stale _ _) eqn:Est; cbn; [rewrite Hn; cbn | subst];
    rewrite Hg; cbn; finish_log env;
    repeat split; discriminate.
Qed.

(** X2: [execute] forwards a transaction only after the balance check, the
    staleness check, the confirmation window and the encoding of the call
    have all succeeded, and then forwards exactly one, carrying the
    request's overrides with [this.nonce] as nonce. *)
Theorem forwarded_only_after_prechecks (env : Env) (r : QueuedTxRequest)
  (p q : PromiseId) (th : TxExecutor) :
  let res := process env (wired p q r) th in
  forwarded (trace res) <> [] ->
  exists n,
    reaches_submission env th n /\
    forwarded (trace res) = [spread_with_nonce (overrides r) n].
Proof.
  intros res. subst res. unfold_execute.
  crawl; intro Hf; try (exfalso; apply Hf; reflexivity);
    (eexists; split; [|reflexivity]);
    unfold reaches_submission;
    repeat match goal with
           | E : ?a = ?b |- context [?a] => rewrite E
           end.
  all: (split; [eexists; split; [reflexivity | apply Qlt_bool_not; assumption]|]);
    (split; [reflexivity|]);
    (split; [repeat match goal with u : unit |- _ => destruct u end;
             reflexivity|]);
    do 2 eexists; reflexivity.
Qed.

(** X3: when the transaction is acknowledged with a nonce that is a safe
    integer and the wait for its receipt fails with [e] (the clock not
    reading 0 at submission), the submission
    future is resolved with the acknowledgement and then the confirmation
    future is rejected with [e]; [e] is printed once; the nonce has been
    incremented and [lastTransaction] is the submission time. *)
Theorem receipt_wait_fails (env : Env) (r : QueuedTxRequest) (p q : PromiseId)
  (th : TxExecutor) (n : Z) (ack : TransactionResponse) (e : JsError) :
  reaches_submission env th n ->
  safe_integer n ->
  acknowledged env ack ->
  waitForTransaction env = Rejects e ->
  Date_now env AtSubmitted <> 0%Z ->
  let res := process env (wired p q r) th in
  settles (trace res) = [(p, FulfilResponse ack); (q, RejectWith e)] /\
  console_errors (trace res) = [e] /\
  this_nonce (final res) = (n + 1)%Z /\
  this_lastTransaction (final res) = Date_now env AtSubmitted /\
  outcome res <> Suspended.
Proof.
  intros Hreach Hsafe Hack Hw Hclock res. subst res.
  apply Z.eqb_neq in Hclock.
  to_submission Hreach;
    rewrite (timeoutAfter_acknowledged env ack _ Hack); cbn;
    rewrite Hw; cbn; rewrite Hclock; cbn;
    rewrite (number_add_safe _ Hsafe);
    finish_log env; repeat split; discriminate.
Qed.

(** X4: a transaction that is acknowledged and mined with status 1 (its
    nonce a safe integer, the clock never reading 0, the account not opted
    out) resolves both futures in order, prints nothing, increments the
    nonce, and hands the sink
    exactly one record, with the hash of the acknowledgement, both waiting
    times measured from [time_called], and no error field. *)
Theorem confirmed_transaction (env : Env) (r : QueuedTxRequest)
  (p q : PromiseId) (th : TxExecutor) (n : Z) (ack : TransactionResponse)
  (rcpt : TransactionReceipt) :
  reaches_submission env th n ->
  safe_integer n ->
  acknowledged env ack ->
  waitForTransaction env = Resolves rcpt ->
  status rcpt = Some 1%Z ->
  Date_now env AtCalled <> 0%Z ->
  Date_now env AtSubmitted <> 0%Z ->
  Date_now env AtConfirmed <> 0%Z ->
  localStorage_getItem env (optout_key (eth_getAddress env)) <> Some "true" ->
  let res := process env (wired p q r) th in
  settles (trace res) = [(p, FulfilResponse ack); (q, FulfilReceipt rcpt)] /\
  console_errors (trace res) = [] /\
  this_nonce (final res) = (n + 1)%Z /\
  exists rec,
    records (trace res) = [rec] /\
    tx_hash rec = Some (hash ack) /\
    wait_submit rec
    = Some (Date_now env AtSubmitted - Date_now env AtCalled)%Z /\
    wait_confirm rec
    = Some (Date_now env AtConfirmed - Date_now env AtCalled)%Z /\
    error rec = None /\ wait_error rec = None /\ parsed_error rec = None.
Proof.
  intros Hreach Hsafe Hack Hw Hst Hc1 Hc2 Hc3 Hflag res. subst res.
  assert (Hs1 : status_is_not_1 rcpt = false).
  { unfold status_is_not_1. rewrite Hst. reflexivity. }
  apply Z.eqb_neq in Hc1, Hc2, Hc3. apply is_not_true_true in Hflag.
  to_submission Hreach;
    rewrite (timeoutAfter_acknowledged env ack _ Hack); cbn;
    rewrite Hw; cbn; rewrite Hs1; cbn;
    rewrite user_address_assemble, Hflag, (number_add_safe _ Hsafe); cbn;
    (destruct (EventLogger_logEvent env); cbn);
    (split; [reflexivity|]); (split; [reflexivity|]); (split; [reflexivity|]);
    eexists; (split; [reflexivity|]);
    unfold assemble; cbn; rewrite Hc1, Hc2, Hc3; cbn;
    repeat split.
Qed.


(** X5: every record handed to the instrumentation sink is consistent:
    [wait_confirm] comes with [wait_submit], [wait_submit] with [tx_hash],
    [error] exactly with [wait_error], [parsed_error] only with [error], and
    [tx_hash] is missing exactly when the submission future was never
    resolved. *)
Theorem record_fields_consistent (env : Env) (r : QueuedTxRequest)
  (p q : PromiseId) (th : TxExecutor) (rec : LogEvent) :
  In rec (records (trace (process env (wired p q r) th))) ->
  (wait_confirm rec <> None -> wait_submit rec <> None) /\
  (wait_submit rec <> None -> tx_hash rec <> None) /\
  (error rec = None <-> wait_error rec = None) /\
  (parsed_error rec <> None -> error rec <> None) /\
  (tx_hash rec = None <->
   forall ack, ~ In (FulfilResponse ack)
                  (settlements p (trace (process env (wired p q r) th)))).
Proof.
  unfold_execute.
  crawl_with ltac:(rewrite ?Nat.eqb_refl in * );
    intro Hin; try contradiction;
    destruct Hin as [<- | []]; unfold assemble; cbn;
    repeat match goal with
           | |- context [(?a =? 0)%Z] => destruct (a =? 0)%Z
           end; cbn;
    (split; [intros; congruence|]);
    (split; [intros; congruence|]);
    (split; [split; intros; congruence|]);
    (split; [intros; congruence|]);
    (split;
     [ intros Hx ack Hin;
       first [ discriminate Hx
             | repeat (destruct Hin as [Hin | Hin]; try discriminate Hin);
               contradiction ]
     | intro Hx;
       first [ reflexivity | exfalso; eapply Hx; left; reflexivity ] ]).
Qed.


(** X6: the balance notification is raised only by a balance below the
    minimum: when the balance query does not resolve to such a value, the
    notification manager is never called. *)
Theorem notifies_only_low_balance (env : Env) (r : QueuedTxRequest)
  (p q : PromiseId) (th : TxExecutor) :
  ~ (exists b, eth_getBalance env = Resolves b /\ (b < MIN_BALANCE_ETH)%Q) ->
  notifications (trace (process env (wired p q r) th)) = 0%nat.
Proof.
  intro Hno.
  assert (Hlow : forall b, eth_getBalance env = Resolves b ->
                           Qlt_bool b MIN_BALANCE_ETH = false).
  { intros b Hb. apply Qlt_bool_false. intro Hlt. apply Hno.
    exists b. split; assumption. }
  unfold_execute.
  crawl; try reflexivity;
    specialize (Hlow _ eq_refl); congruence.
Qed.

(** X7: the nonce is consumed exactly by an acknowledgement.  If the
    submission future was resolved, a single transaction was forwarded and
    the final nonce is its nonce plus 1 as the addition on numbers computes
    it, which is the exact successor when that nonce is a safe integer;
    otherwise whatever was forwarded carries the final nonce, which the next
    request will use again. *)
Theorem nonce_follows_acknowledgement (env : Env) (r : QueuedTxRequest)
  (p q : PromiseId) (th : TxExecutor) :
  let res := process env (wired p q r) th in
  match settlements p (trace res) with
  | FulfilResponse _ :: _ =>
      exists n,
        map nonce (forwarded (trace res)) = [Some n] /\
        this_nonce (final res) = number_add n 1 /\
        (safe_integer n -> this_nonce (final res) = (n + 1)%Z)
  | _ =>
      forall o, In o (forwarded (trace res)) ->
                nonce o = Some (this_nonce (final res))
  end.
Proof.
  intro res. subst res. unfold_execute.
  assert (Hsp : forall o n, nonce (spread_with_nonce o n) = Some n)
    by reflexivity.
  crawl_with ltac:(rewrite ?Nat.eqb_refl, ?Hsp in * );
    try discriminate;
    try (intros o Hin; repeat (destruct Hin as [<- | Hin]);
         solve [contradiction | apply Hsp]);
    eexists; (split; [reflexivity|]); (split; [reflexivity|]);
    intro Hsafe; apply number_add_safe; exact Hsafe.
Qed.

(** X10: [execute] settles only the two futures of its own request, and
    whenever it settles the confirmation future, the first thing it settled
    was the submission future, by resolving it. *)
Theorem settles_own_futures_in_order (env : Env) (r : QueuedTxRequest)
  (p q : PromiseId) (th : TxExecutor) :
  p <> q ->
  let res := process env (wired p q r) th in
  (forall p' s, In (p', s) (settles (trace res)) -> p' = p \/ p' = q) /\
  (settlements q (trace res) <> [] ->
   exists ack others,
     settles (trace res) = (p, FulfilResponse ack) :: others).
Proof.
  intros Hpq res. subst res.
  assert (Hqp : (p =? q)%nat = false) by (apply Nat.eqb_neq; exact Hpq).
  unfold_execute.
  crawl_with ltac:(rewrite ?Nat.eqb_refl, ?Hqp in * );
    (split;
     [ intros ? ? Hin;
       repeat (destruct Hin as [Hin | Hin];
               [injection Hin as <- _; auto|]);
       contradiction
     | intro Hq; first [ exfalso; apply Hq; reflexivity
                       | do 2 eexists; reflexivity ] ]).
Qed.

(** X11: every error that the catch block prints is delivered to a future
    and conversely: the errors rejected with are the errors printed, there is
    at most one per request, and it is the one kept in [error] for the
    instrumentation record. *)
Theorem caught_errors_are_delivered (env : Env) (r : QueuedTxRequest)
  (p q : PromiseId) (th : TxExecutor) :
  let res := process env (wired p q r) th in
  rejections (trace res) = console_errors (trace res) /\
  (length (rejections (trace res)) <= 1)%nat /\
  (forall e, In e (rejections (trace res)) ->
             error_ (final_locals res) = Some e).
Proof.
  intro res. subst res. unfold_execute.
  crawl; (split; [reflexivity|]); (split; [cbn; lia|]);
    intros ? Hin; repeat (destruct Hin as [<- | Hin]);
    solve [contradiction | reflexivity].
Qed.

(** X12: when the collaborators answer, the only thing that keeps a
    request's record from the instrumentation sink is the value ["true"]
    stored under the opt-out key of the connection's account. *)
Theorem suppressed_only_by_true (env : Env) (r : QueuedTxRequest)
  (p q : PromiseId) (th : TxExecutor) :
  responsive env ->
  let res := process env (wired p q r) th in
  records (trace res) = [] <->
  localStorage_getItem env (optout_key (eth_getAddress env)) = Some "true".
Proof.
  intros (Hb & Hn & Hg & Hp & Hw) res. subst res.
  assert (Hflag : forall v, is_not_true v = false <-> v = Some "true").
  { intros [s|]; unfold is_not_true; [|split; discriminate].
    destruct (String.eqb_spec s "true") as [-> | Hne]; cbn.
    - split; reflexivity.
    - split; [discriminate | intro Hs; injection Hs as ->; contradiction]. }
  unfold_execute.
  crawl; try congruence;
    match goal with
    | E : is_not_true _ = true |- _ =>
        split; [discriminate | intro Hs; apply Hflag in Hs; congruence]
    | E : is_not_true _ = false |- _ =>
        split; [intros _; apply Hflag; exact E | reflexivity]
    end.
Qed.

Lemma responsive_ends (env : Env) (v : QueuedTxRequest) (th : TxExecutor) :
  responsive env -> outcome (process env v th) <> Suspended.
Proof.
  intros (Hb & Hn & Hg & Hp & Hw). unfold_execute. crawl; congruence.
Qed.

Lemma responsive_settles (env : Env) (r : QueuedTxRequest) (p q : PromiseId)
  (th : TxExecutor) :
  responsive env ->
  settlements p (trace (process env (wired p q r) th)) <> [].
Proof.
  intros (Hb & Hn & Hg & Hp & Hw). unfold_execute.
  crawl_with ltac:(rewrite ?Nat.eqb_refl in * ); congruence.
Qed.

(** While the only invocation awaits a promise that never settles, the
    executor does nothing but queue. *)
Lemma stuck_forever (cfg1 cfg2 : Config) (t : Task) :
  concurrency cfg1 = 1%nat -> running cfg1 = [t] -> rest t = Stuck ->
  steps cfg1 cfg2 ->
  concurrency cfg2 = 1%nat /\ running cfg2 = [t] /\
  this cfg2 = this cfg1 /\ history cfg2 = history cfg1 /\
  exists added, waiting cfg2 = (waiting cfg1 ++ added)%list.
Proof.
  intros Hc1 Hr1 Hstuck Hsteps.
  induction Hsteps as [cfg | cfg cfg2 cfg3 Hs IH Hstep].
  - repeat split; try assumption. exists []. rewrite app_nil_r. reflexivity.
  - destruct (IH Hc1 Hr1) as (Hc & Hr & Ht & Hh & added & Hw). clear IH.
    destruct Hstep as [cfg2 ty aid ct ar ov sl
                      | cfg2 i t' env' X c k Hnth Hrest e
                      | cfg2 i t' err Hnth Hfin].
    + destruct (makeRequest_pushes cfg2 ty aid ct ar ov sl) as [r' ->].
      unfold push. cbn [running concurrency]. rewrite Hc, Hr. cbn.
      repeat split; try assumption.
      exists (added ++ [wired (allocated cfg2) (S (allocated cfg2)) r'])%list.
      rewrite Hw, app_assoc. reflexivity.
    + rewrite Hr in Hnth.
      destruct i as [|[|i]]; try discriminate.
      injection Hnth as <-. rewrite Hstuck in Hrest. discriminate Hrest.
    + rewrite Hr in Hnth.
      destruct i as [|[|i]]; try discriminate.
      injection Hnth as <-. rewrite Hstuck in Hfin. discriminate Hfin.
Qed.

(** X8: a request that awaits a promise that never settles holds the only
    slot of the queue for ever: the executor reaches the state where the
    request is suspended, and from there on no step changes the running
    invocation, the nonce state or the history; requests made later only
    lengthen the waiting list. *)
Theorem stuck_request_blocks_queue (env : Env) (v : QueuedTxRequest)
  (w : list QueuedTxRequest) (th : TxExecutor) (a : nat) (h : list Event) :
  let res := process env v th in
  outcome res = Suspended ->
  exists cfg1,
    steps
      {| this := th; concurrency := 1; waiting := w; running := [start v];
         allocated := a; history := h |} cfg1 /\
    history cfg1 = (h ++ trace res)%list /\
    forall cfg2, steps cfg1 cfg2 ->
      running cfg2 = running cfg1 /\
      this cfg2 = this cfg1 /\
      history cfg2 = history cfg1 /\
      exists added, waiting cfg2 = (w ++ added)%list.
Proof.
  intros res Hout.
  pose proof (run_steps env (execute v) th initial_locals v 1 w a h) as Hrun.
  cbv zeta in Hrun. fold (process env v th) in Hrun. fold res in Hrun.
  rewrite Hout in Hrun. cbn [leaf] in Hrun.
  eexists. split; [exact Hrun|]. split; [reflexivity|].
  intros cfg2 Hsteps.
  match type of Hsteps with
  | steps ?c _ =>
      destruct (stuck_forever c cfg2 _ eq_refl eq_refl eq_refl Hsteps)
        as (_ & Hr & Ht & Hh & Hadd)
  end.
  repeat split; assumption.
Qed.

(** X9: when the collaborators answer every request of a batch, the worker
    processes the whole batch, one request after the other, and comes to
    rest with nothing running and nothing waiting; the submission future of
    every request of the batch is then settled. *)
Theorem responsive_batch_completes (others : list (QueuedTxRequest * Env)) :
  forall (v : QueuedTxRequest) (env : Env) (th : TxExecutor) (a : nat)
         (h : list Event),
    Forall (fun j => responsive (snd j)) ((v, env) :: others) ->
    let d := drain th ((v, env) :: others) in
    steps
      {| this := th; concurrency := 1; waiting := map fst others;
         running := [start v]; allocated := a; history := h |}
      {| this := fst d; concurrency := 1; waiting := [];
         running := []; allocated := a; history := h ++ snd d |} /\
    (forall p q r env', In (wired p q r, env') ((v, env) :: others) ->
                        settlements p (snd d) <> []).
Proof.
  induction others as [|[v' env'] others IH]; intros v env th a h Hall d;
    subst d; inversion Hall as [|j l Hresp Hall']; subst;
    cbn [snd] in Hresp;
    pose proof (responsive_ends env v th Hresp) as Hend;
    cbn [drain map fst].
  - split.
    + destruct (outcome (process env v th)) eqn:Ho; [| |congruence];
        cbn [fst snd]; rewrite <- Ho, app_nil_r;
        apply (worker_calls_back env v [] th 1 a h); congruence.
    + intros p q r e0 [Heq | []]. injection Heq as -> ->.
      destruct (outcome (process e0 (wired p q r) th)); [| |congruence];
        cbn [snd]; apply settled_app_l; apply responsive_settles;
        exact Hresp.
  - destruct (IH v' env' (final (process env v th)) a
                (h ++ trace (process env v th)
                   ++ called_back (outcome (process env v th)))%list Hall')
      as [Hsteps Hsettled].
    pose proof (worker_proceeds env v v' (map fst others) th 1 a h Hend)
      as Hfirst.
    split.
    + destruct (outcome (process env v th)) eqn:Ho; [| |congruence];
        cbn [fst snd];
        (eapply steps_trans; [exact Hfirst|]);
        rewrite <- !app_assoc in Hsteps; exact Hsteps.
    + intros p q r e0 [Heq | Hin].
      * injection Heq as -> ->.
        destruct (outcome (process e0 (wired p q r) th)); [| |congruence];
          cbn [snd]; apply settled_app_l; apply responsive_settles;
          exact Hresp.
      * specialize (Hsettled p q r e0 Hin).
        destruct (outcome (process env v th)); [| |congruence];
          cbn [snd]; apply settled_app_r, settled_app_r; exact Hsettled.
Qed.

(** X13: the queue never idles while requests wait: in every state that
    the executor can reach from its construction, if no invocation is
    running then the waiting list is empty. *)
Theorem idle_queue_is_empty (env0 : Env) (nonce0 : Z) (cfg : Config) :
  steps (constructor env0 nonce0) cfg ->
  running cfg = [] -> waiting cfg = [].
Proof.
  intros Hs Hidle.
  destruct (shape_steps env0 nonce0 cfg Hs) as (d & _ & _ & Hrun).
  rewrite Hidle in Hrun. exact (proj1 Hrun).
Qed.

End Verification.

(** ** The upgrade decoders *)

Section Decoders.

Context `{Ethers}.

Lemma array_map_returns {A B : Type} (f : A -> Completion B) (l : list A) :
  forall bs, array_map f l = Returns bs ->
             Forall2 (fun a b => f a = Returns b) l bs.
Proof.
  induction l as [|a l IH]; intros bs Hm; cbn in Hm.
  - injection Hm as <-. constructor.
  - destruct (f a) as [b|e] eqn:Ea; cbn in Hm; [|discriminate].
    destruct (array_map f l) as [bs'|e] eqn:El; cbn in Hm; [|discriminate].
    injection Hm as <-. constructor; [exact Ea | apply IH; reflexivity].
Qed.

(** X14: [rawUpgradeToUpgrade] returns exactly when the raw upgrade has at
    least five entries and the first five convert to numbers; the fields of
    the result are these numbers in the order energy cap, energy growth,
    range, speed, defense, and further entries are ignored. *)
Theorem rawUpgradeToUpgrade_returns (raw : RawUpgrade) (u : Upgrade) :
  rawUpgradeToUpgrade raw = Returns u <->
  exists b0 b1 b2 b3 b4 extra,
    raw = (b0 :: b1 :: b2 :: b3 :: b4 :: extra)%list /\
    toNumber b0 = Returns (energyCapMultiplier u) /\
    toNumber b1 = Returns (energyGroMultiplier u) /\
    toNumber b2 = Returns (rangeMultiplier u) /\
    toNumber b3 = Returns (speedMultiplier u) /\
    toNumber b4 = Returns (defMultiplier u).
Proof.
  unfold rawUpgradeToUpgrade, toNumber_at. split.
  - intro Hr.
    destruct raw as [|b0 [|b1 [|b2 [|b3 [|b4 extra]]]]]; cbn in Hr;
      repeat match type of Hr with
             | context [toNumber ?b] =>
                 let E := fresh "E" in
                 destruct (toNumber b) eqn:E; cbn in Hr
             end;
      try discriminate.
    injection Hr as <-. cbn.
    exists b0, b1, b2, b3, b4, extra. repeat split; assumption.
  - intros (b0 & b1 & b2 & b3 & b4 & extra & -> & H0 & H1 & H2 & H3 & H4).
    cbn. rewrite H0, H1, H2, H3, H4. cbn. destruct u; reflexivity.
Qed.

(** X15: when [rawUpgradesInfoToUpgradesInfo] returns, the result has the
    shape of the input (as many branches, each with as many upgrades) and
    every upgrade is the decoding of the raw upgrade at the same place. *)
Theorem rawUpgradesInfo_shape (raw : list (list RawUpgrade))
  (info : list (list Upgrade)) :
  rawUpgradesInfoToUpgradesInfo raw = Returns info ->
  Forall2 (Forall2 (fun r u => rawUpgradeToUpgrade r = Returns u)) raw info /\
  map (@length Upgrade) info = map (@length RawUpgrade) raw.
Proof.
  unfold rawUpgradesInfoToUpgradesInfo. intro Hm.
  apply array_map_returns in Hm.
  assert (HF : Forall2 (Forall2 (fun r u => rawUpgradeToUpgrade r = Returns u))
                 raw info).
  { induction Hm as [|a b l bs Hab _ IH]; constructor; [|exact IH].
    apply array_map_returns. exact Hab. }
  split; [exact HF|].
  clear Hm. induction HF as [|a b l bs Hab _ IH]; [reflexivity|].
  cbn. f_equal; [|exact IH].
  symmetry. exact (Forall2_length Hab).
Qed.

Lemma array_map_app {A B : Type} (f : A -> Completion B) (l1 l2 : list A) :
  array_map f (l1 ++ l2)
  = and_then (array_map f l1) (fun b1 =>
    and_then (array_map f l2) (fun b2 => Returns (b1 ++ b2)%list)).
Proof.
  induction l1 as [|a l1 IH]; cbn.
  - destruct (array_map f l2); reflexivity.
  - destruct (f a) as [b|e]; cbn; [|reflexivity].
    rewrite IH.
    destruct (array_map f l1) as [b1|e]; cbn; [|reflexivity].
    destruct (array_map f l2); reflexivity.
Qed.

(** X16: decoding a table of upgrades distributes over concatenation: the
    branches are decoded from left to right, the decodings are concatenated,
    and an exception in the first part is the one raised. *)
Theorem rawUpgradesInfo_app (raw1 raw2 : list (list RawUpgrade)) :
  rawUpgradesInfoToUpgradesInfo (raw1 ++ raw2)
  = and_then (rawUpgradesInfoToUpgradesInfo raw1) (fun info1 =>
    and_then (rawUpgradesInfoToUpgradesInfo raw2) (fun info2 =>
    Returns (info1 ++ info2)%list)).
Proof. unfold rawUpgradesInfoToUpgradesInfo. apply array_map_app. Qed.

(** X17: [rawUpgradesInfoToUpgradesInfo] throws exactly when the decoding
    of some raw upgrade of some branch throws. *)
Theorem rawUpgradesInfo_throws (raw : list (list RawUpgrade)) :
  (exists e, rawUpgradesInfoToUpgradesInfo raw = Throws e) <->
  Exists (Exists (fun r => exists e, rawUpgradeToUpgrade r = Throws e)) raw.
Proof.
  assert (Hinner : forall a : list RawUpgrade,
            (exists e, array_map (fun b => rawUpgradeToUpgrade b) a = Throws e)
            <-> Exists (fun r => exists e, rawUpgradeToUpgrade r = Throws e) a).
  { induction a as [|r a IH]; cbn.
    - split; [intros [e He]; discriminate | intro Hx; inversion Hx].
    - destruct (rawUpgradeToUpgrade r) as [u|e] eqn:Er; cbn.
      + destruct (array_map _ a) as [us|e]; cbn.
        * split; [intros [e He]; discriminate|].
          intro Hx. inversion Hx as [? ? [e He] | ? ? Hx']; subst.
          -- congruence.
          -- apply IH in Hx'. destruct Hx' as [e He]. discriminate.
        * split; [intros _; apply Exists_cons_tl, IH; eexists; reflexivity|].
          intros _. eexists. reflexivity.
      + split; [intros _; apply Exists_cons_hd; eexists; exact Er|].
        intros _. eexists. reflexivity. }
  unfold rawUpgradesInfoToUpgradesInfo.
  induction raw as [|a raw IH]; cbn.
  - split; [intros [e He]; discriminate | intro Hx; inversion Hx].
  - destruct (array_map _ a) as [us|e] eqn:Ea; cbn.
    + destruct (array_map _ raw) as [uss|e]; cbn.
      * split; [intros [e He]; discriminate|].
        intro Hx. inversion Hx as [? ? Hx' | ? ? Hx']; subst.
        -- apply Hinner in Hx'. destruct Hx' as [e He]. congruence.
        -- apply IH in Hx'. destruct Hx' as [e He]. discriminate.
      * split; [intros _; apply Exists_cons_tl, IH; eexists; reflexivity|].
        intros _. eexists. reflexivity.
    + split; [intros _; apply Exists_cons_hd, Hinner; eexists; exact Ea|].
      intros _. eexists. reflexivity.
Qed.

End Decoders.

(** ** The theorems at concrete inputs *)

#[local] Existing Instance Demo.imports.

Lemma demo_reaches_submission (t : Z) (n : Z)
  (f : Timed TransactionResponse) (w : Promise TransactionReceipt) :
  (t + 1 - 1000 >? 20000)%Z = false ->
  reaches_submission (Demo.world t (1 # 1) n f w) Demo.th5 5.
Proof.
  intro Hfresh.
  split; [|split; [|split]].
  - exists (1 # 1)%Q. split; [reflexivity|].
    intro Hlt. vm_compute in Hlt. discriminate.
  - unfold stale, NONCE_STALE_AFTER_MS. cbn. rewrite Hfresh. reflexivity.
  - reflexivity.
  - exists "0xto", "0xdata". reflexivity.
Defined.

Lemma demo_responsive (t : Z) (b : Q) (n : Z)
  (f : Timed TransactionResponse) (rcpt : TransactionReceipt) :
  responsive (Demo.world t b n f (Resolves rcpt)).
Proof. repeat split; discriminate. Defined.

Lemma demo_safe_5 : safe_integer 5.
Proof. split; discriminate. Defined.

Lemma C1_witness :
  let res := process Demo.env_reverted (Demo.req 0 1) Demo.th5 in
  settlements 0 (trace res) = [FulfilResponse Demo.ack] /\
  settlements 1 (trace res) = [FulfilReceipt Demo.reverted] /\
  error_ (final_locals res) = Some TransactionReverted /\
  (Date_now Demo.env_reverted AtConfirmed <> 0%Z ->
   forall rec, In rec (records (trace res)) ->
               error rec = Some "transaction reverted") /\
  map nonce (forwarded (trace res)) = [Some 5] /\
  this_nonce (final res) = (5 + 1)%Z.
Proof.
  apply (C1_reverted_receipt Demo.env_reverted Demo.move 0 1 Demo.th5 5
           Demo.ack Demo.reverted).
  - discriminate.
  - apply demo_reaches_submission. reflexivity.
  - exact demo_safe_5.
  - split; reflexivity.
  - reflexivity.
  - discriminate.
Defined.

Lemma C1_counterexample :
  let res := process Demo.env_reverted (Demo.req 0 1) Demo.th5 in
  acknowledged Demo.env_reverted Demo.ack /\
  waitForTransaction Demo.env_reverted = Resolves Demo.reverted /\
  status Demo.reverted <> Some 1 /\
  promise_state 0 (trace res) = Some (FulfilResponse Demo.ack) /\
  promise_state 1 (trace res) = Some (FulfilReceipt Demo.reverted) /\
  ~ (exists e, In (RejectWith e) (settlements 1 (trace res))) /\
  let res' := process Demo.env_reverted (Demo.req 0 1) Demo.th_max in
  promise_state 0 (trace res') = Some (FulfilResponse Demo.ack) /\
  map nonce (forwarded (trace res')) = [Some 9007199254740992] /\
  this_nonce (final res') = 9007199254740992.
Proof.
  intro res.
  assert (E2 : let res' :=
                 process Demo.env_reverted (Demo.req 0 1) Demo.th_max in
               promise_state 0 (trace res') = Some (FulfilResponse Demo.ack) /\
               map nonce (forwarded (trace res')) = [Some 9007199254740992] /\
               this_nonce (final res') = 9007199254740992).
  { split; [vm_compute; reflexivity|]. split; vm_compute; reflexivity. }
  assert (E0 : settlements 0 (trace res) = [FulfilResponse Demo.ack])
    by (vm_compute; reflexivity).
  assert (E1 : settlements 1 (trace res) = [FulfilReceipt Demo.reverted])
    by (vm_compute; reflexivity).
  unfold promise_state. rewrite E0, E1.
  split; [split; reflexivity|].
  split; [reflexivity|].
  split; [discriminate|].
  split; [reflexivity|].
  split; [reflexivity|].
  split; [|exact E2].
  intros [e [Hd | []]]. discriminate.
Qed.

Lemma C2_witness :
  let res := process Demo.env_low (Demo.req 0 1) Demo.th5 in
  settlements 0 (trace res) = [RejectWith InsufficientBalance] /\
  final res = Demo.th5 /\
  notifications (trace res) = 1%nat /\
  steps
    {| this := Demo.th5; concurrency := 1; waiting := [Demo.req 2 3];
       running := [start (Demo.req 0 1)]; allocated := 4; history := [] |}
    {| this := Demo.th5; concurrency := 1; waiting := [];
       running := [start (Demo.req 2 3)]; allocated := 4;
       history := [] ++ trace res ++ called_back (outcome res) |}.
Proof.
  apply (C2_insufficient_balance Demo.env_low Demo.move (Demo.req 2 3) [] 0 1
           Demo.th5 (1 # 1000)%Q 4%nat []).
  - reflexivity.
  - reflexivity.
Defined.

Lemma C3_witness :
  let res := process Demo.env_timeout (Demo.req 0 1) Demo.th5 in
  settlements 0 (trace res) = [RejectWith (SubmissionTimeout Demo.move)] /\
  this_nonce (final res) = 5 /\
  map nonce (forwarded (trace res)) = [Some 5] /\
  this_lastTransaction (final res) = this_lastTransaction Demo.th5 /\
  steps
    {| this := Demo.th5; concurrency := 1; waiting := [Demo.req 2 3];
       running := [start (Demo.req 0 1)]; allocated := 4; history := [] |}
    {| this := final res; concurrency := 1; waiting := [];
       running := [start (Demo.req 2 3)]; allocated := 4;
       history := [] ++ trace res ++ called_back (outcome res) |}.
Proof.
  apply (C3_submission_timeout Demo.env_timeout Demo.move (Demo.req 2 3) [] 0 1
           Demo.th5 5 4%nat []).
  - apply demo_reaches_submission. reflexivity.
  - left. reflexivity.
Defined.

Lemma C3_counterexample :
  let res := process Demo.env_stale_timeout (Demo.req 0 1) Demo.th5 in
  not_acknowledged_in_time Demo.env_stale_timeout /\
  settlements 0 (trace res) = [RejectWith (SubmissionTimeout Demo.move)] /\
  this_nonce Demo.th5 = 5 /\
  this_nonce (final res) = 9.
Proof.
  intro res.
  split; [left; reflexivity|].
  split; [vm_compute; reflexivity|].
  split; [reflexivity|].
  vm_compute. reflexivity.
Qed.

Lemma C4_witness :
  let d := drain Demo.th5 Demo.jobs_ahead in
  let d' := drain Demo.th5 Demo.jobs_agree in
  submitted_nonces (snd d) = [5; 9; 10] /\
  ((this_nonce Demo.th5 <= this_nonce (fst d))%Z /\
   StronglySorted Z.lt (submitted_nonces (snd d)) /\
   NoDup (submitted_nonces (snd d)) /\
   (forall n, In n (submitted_nonces (snd d)) ->
              (this_nonce Demo.th5 <= n < this_nonce (fst d))%Z)) /\
  (forall k n, nth_error (submitted_nonces (snd d')) k = Some n ->
               n = (this_nonce Demo.th5 + Z.of_nat k)%Z) /\
  this_nonce (fst d')
  = (this_nonce Demo.th5 + Z.of_nat (length (submitted_nonces (snd d'))))%Z.
Proof.
  intros d d'.
  assert (Hwired : forall p q, exists p' q' r,
             fst (Demo.req p q, Demo.env_ok) = wired p' q' r)
    by (intros p q; exists p, q, Demo.move; reflexivity).
  assert (E : submitted_nonces (snd d) = [5; 9; 10])
    by (vm_compute; reflexivity).
  assert (E' : submitted_nonces (snd d') = [5; 6; 7])
    by (vm_compute; reflexivity).
  assert (Hnum : Forall (fun n => (0 <= n)%Z /\ representable n) [5; 9; 10])
    by (repeat constructor; discriminate).
  assert (Hnum' : Forall (fun n => (0 <= n)%Z /\ representable n) [5; 6; 7])
    by (repeat constructor; discriminate).
  assert (Hsafe : Forall safe_integer [5; 9; 10])
    by (repeat constructor; discriminate).
  assert (Hsafe' : Forall safe_integer [5; 6; 7])
    by (repeat constructor; discriminate).
  assert (E1 : final (process Demo.env_ok (Demo.req 0 1) Demo.th5)
               = {| this_nonce := 6; this_lastTransaction := 2003 |})
    by (vm_compute; reflexivity).
  assert (E2 : final (process Demo.env_stale_9 (Demo.req 2 3)
                        {| this_nonce := 6; this_lastTransaction := 2003 |})
               = {| this_nonce := 10; this_lastTransaction := 30003 |})
    by (vm_compute; reflexivity).
  assert (E3 : final (process Demo.env_stale_6 (Demo.req 2 3)
                        {| this_nonce := 6; this_lastTransaction := 2003 |})
               = {| this_nonce := 7; this_lastTransaction := 30003 |})
    by (vm_compute; reflexivity).
  assert (Hahead : refresh_not_behind Demo.th5 Demo.jobs_ahead).
  { unfold Demo.jobs_ahead. cbn [refresh_not_behind]. rewrite E1, E2.
    split; [intro Hs; vm_compute in Hs; discriminate|].
    split; [intros _ m Hm; injection Hm as <-; discriminate|].
    split; [intro Hs; vm_compute in Hs; discriminate | exact I]. }
  assert (Hagree : refresh_agrees Demo.th5 Demo.jobs_agree).
  { unfold Demo.jobs_agree. cbn [refresh_agrees]. rewrite E1, E3.
    split; [intro Hs; vm_compute in Hs; discriminate|].
    split; [intros _ m Hm; injection Hm as <-; reflexivity|].
    split; [intro Hs; vm_compute in Hs; discriminate | exact I]. }
  assert (Hnb : refresh_not_behind Demo.th5 Demo.jobs_agree).
  { unfold Demo.jobs_agree. cbn [refresh_not_behind]. rewrite E1, E3.
    split; [intro Hs; vm_compute in Hs; discriminate|].
    split; [intros _ m Hm; injection Hm as <-; discriminate|].
    split; [intro Hs; vm_compute in Hs; discriminate | exact I]. }
  split; [exact E|].
  split.
  - rewrite <- E in Hnum, Hsafe.
    destruct (C4_nonce_sequence Demo.jobs_ahead Demo.th5
                ltac:(repeat constructor; apply Hwired) Hnum Hahead)
      as (Hl & Hrest).
    destruct (Hrest Hsafe) as (Hs & Hd & Hb & _).
    repeat split; try assumption; apply Hb; assumption.
  - rewrite <- E' in Hnum', Hsafe'.
    destruct (C4_nonce_sequence Demo.jobs_agree Demo.th5
                ltac:(repeat constructor; apply Hwired) Hnum' Hnb)
      as (_ & Hrest).
    destruct (Hrest Hsafe') as (_ & _ & _ & Hag).
    exact (Hag Hagree).
Defined.

Lemma C4_counterexample :
  submitted_nonces
    (snd (drain Demo.th5 [(Demo.req 0 1, Demo.env_ok);
                          (Demo.req 2 3, Demo.env_stale_5)]))
  = [5; 5] /\
  this_nonce (fst (drain Demo.th5 [(Demo.req 0 1, Demo.env_ok)])) = 6 /\
  this_nonce
    (fst (drain Demo.th5 [(Demo.req 0 1, Demo.env_ok);
                          (Demo.req 2 3, Demo.env_stale_3)]))
  = 3 /\
  submitted_nonces
    (snd (drain Demo.th5 [(Demo.req 0 1, Demo.env_ok);
                          (Demo.req 2 3, Demo.env_stale_9)]))
  = [5; 9] /\
  submitted_nonces
    (snd (drain Demo.th_max [(Demo.req 0 1, Demo.env_ok);
                             (Demo.req 2 3, Demo.env_ok)]))
  = [9007199254740992; 9007199254740992].
Proof.
  split; [vm_compute; reflexivity|].
  split; [vm_compute; reflexivity|].
  split; [vm_compute; reflexivity|].
  split; vm_compute; reflexivity.
Qed.

Lemma demo_second_running :
  steps (constructor (Demo.constructed_at 1000) 5) Demo.second_running.
Proof.
  eapply steps_trans;
    [|apply (worker_proceeds Demo.env_ok (Demo.req 0 1) (Demo.req 2 3)
               [Demo.req 4 5] Demo.th5 1 6 []);
      vm_compute; discriminate].
  change
    (steps (constructor (Demo.constructed_at 1000) 5)
       (Demo.request_made
          (Demo.request_made
             (Demo.request_made (constructor (Demo.constructed_at 1000) 5))))).
  unfold Demo.request_made.
  eapply steps_step; [eapply steps_step; [apply steps_one|]|];
    apply step_makeRequest.
Defined.

Lemma C5_witness :
  let cfg := Demo.second_running in
  (running cfg = [start (Demo.req 2 3)] /\
   waiting cfg = [Demo.req 4 5] /\
   settlements (submitted_of 0) (history cfg) = [FulfilResponse Demo.ack]) /\
  (length (running cfg) <= 1)%nat /\
  (forall a b, (a < b)%nat ->
     settlements (submitted_of b) (history cfg) <> [] ->
     settlements (submitted_of a) (history cfg) <> []) /\
  (forall t b, In t (running cfg) -> kth_request b (value_ t) ->
     (forall a, (a < b)%nat ->
        settlements (submitted_of a) (history cfg) <> []) /\
     queued_from (S b) (waiting cfg)) /\
  exists done,
    (forall a, (a < done)%nat ->
       settlements (submitted_of a) (history cfg) <> []) /\
    (forall t, In t (running cfg) -> kth_request done (value_ t)) /\
    let made := (done + length (running cfg) + length (waiting cfg))%nat in
    allocated cfg = submitted_of made /\
    forall type_ actionId_ contract_ args_ overrides_ snarkLogs_,
      let result :=
        makeRequest type_ actionId_ contract_ args_ overrides_ snarkLogs_
          cfg in
      submitted (fst result) = submitted_of made /\
      confirmed (fst result) = confirmed_of made /\
      exists v,
        kth_request made v /\
        type v = type_ /\ actionId v = actionId_ /\
        contract v = contract_ /\ args v = args_ /\
        snarkLogs v = snarkLogs_ /\
        match running cfg with
        | [] =>
            running (snd result) = [start v] /\ waiting (snd result) = []
        | _ :: _ =>
            running (snd result) = running cfg /\
            waiting (snd result) = (waiting cfg ++ [v])%list
        end.
Proof.
  split.
  - split; [reflexivity|]. split; [reflexivity|]. vm_compute. reflexivity.
  - apply (C5_fifo_single_worker (Demo.constructed_at 1000) 5).
    exact demo_second_running.
Defined.



Lemma C7_witness :
  let env := Demo.env_low in
  let res := process env (Demo.req 0 1) Demo.th5 in
  outcome res <> Suspended /\
  (forall e, outcome res = Threw e -> EventLogger_logEvent env = Throws e) /\
  records (trace res) =
    (if is_not_true (localStorage_getItem env (optout_key (eth_getAddress env)))
     then [assemble (Demo.req 0 1) (Date_now env AtExecCalled)
             (final_locals res) (eth_getRpcEndpoint env) (eth_getAddress env)]
     else []) /\
  (forall c, trace (process (with_sink env c) (Demo.req 0 1) Demo.th5)
             = trace res
             /\ final (process (with_sink env c) (Demo.req 0 1) Demo.th5)
                = final res) /\
  steps
    {| this := Demo.th5; concurrency := 1; waiting := [Demo.req 2 3];
       running := [start (Demo.req 0 1)]; allocated := 4; history := [] |}
    (release
       {| this := final res; concurrency := 1; waiting := [Demo.req 2 3];
          running := []; allocated := 4;
          history := [] ++ trace res ++ called_back (outcome res) |}).
Proof.
  apply (C7_errors_contained Demo.env_low Demo.move 0 1 Demo.th5 [Demo.req 2 3]
           4%nat []).
  apply demo_responsive.
Defined.

Lemma C7_counterexample :
  let res := process Demo.env_hung (Demo.req 0 1) Demo.th5 in
  outcome res = Suspended /\
  records (trace res) = [] /\
  localStorage_getItem Demo.env_hung (optout_key (eth_getAddress Demo.env_hung))
  = None /\
  exists cfg1,
    steps
      {| this := Demo.th5; concurrency := 1; waiting := [Demo.req 2 3];
         running := [start (Demo.req 0 1)]; allocated := 4; history := [] |}
      cfg1 /\
    forall cfg2, steps cfg1 cfg2 ->
      records (history cfg2) = [] /\
      (exists t, running cfg2 = [t] /\ value_ t = Demo.req 0 1) /\
      exists added, waiting cfg2 = (Demo.req 2 3 :: added)%list.
Proof.
  intro res.
  assert (Ho : outcome res = Suspended) by (vm_compute; reflexivity).
  assert (Er : records (trace res) = []) by (vm_compute; reflexivity).
  split; [exact Ho|]. split; [exact Er|]. split; [reflexivity|].
  pose proof (run_steps Demo.env_hung (execute (Demo.req 0 1)) Demo.th5
                initial_locals (Demo.req 0 1) 1 [Demo.req 2 3] 4 [])
    as Hrun.
  cbv zeta in Hrun. fold (process Demo.env_hung (Demo.req 0 1) Demo.th5) in Hrun.
  fold res in Hrun. rewrite Ho in Hrun. cbn [leaf] in Hrun.
  eexists. split; [exact Hrun|].
  intros cfg2 Hsteps.
  match type of Hsteps with
  | steps ?c _ =>
      destruct (stuck_forever c cfg2 _ eq_refl eq_refl eq_refl Hsteps)
        as (_ & Hr & _ & Hh & added & Hadd)
  end.
  rewrite Hh, Hr, Hadd. cbn [history running waiting app].
  rewrite Er.
  split; [reflexivity|]. split; [eexists; split; reflexivity|].
  exists added. reflexivity.
Qed.



Lemma C9_witness :
  let env := Demo.env_ok in
  records (trace (process (with_address env "0xA") (Demo.req 0 1) Demo.th5))
  = [] /\
  (exists rec,
     records (trace (process (with_address env "0xB") (Demo.req 0 1) Demo.th5))
     = [rec]
     /\ user_address rec = "0xB") /\
  (forall v,
     process (with_address (with_item env (optout_key "0xA") v) "0xB")
       (Demo.req 0 1) Demo.th5
     = process (with_address env "0xB") (Demo.req 0 1) Demo.th5).
Proof.
  apply (C9_optout_isolated Demo.env_ok Demo.move 0 1 Demo.th5 "0xA" "0xB").
  - discriminate.
  - reflexivity.
  - discriminate.
  - apply demo_responsive.
Defined.

Lemma C10_witness :
  let cfg := constructor (Demo.constructed_at 1000) 5 in
  let env := Demo.env_ok in
  let req :=
    wired (allocated cfg) (S (allocated cfg))
      {| onSubmissionError := fun _ => BalanceEmpty;
         onReceiptError := fun _ => BalanceEmpty;
         onTransactionResponse := fun _ => BalanceEmpty;
         onTransactionReceipt := fun _ => BalanceEmpty;
         type := type Demo.move; actionId := "a1";
         contract := contract Demo.move; args := args Demo.move;
         overrides := default_overrides; snarkLogs := None |} in
  snd (makeRequest (type Demo.move) "a1" (contract Demo.move)
         (args Demo.move) None None cfg)
  = push req
      {| this := this cfg; concurrency := concurrency cfg;
         waiting := waiting cfg; running := running cfg;
         allocated := S (S (allocated cfg)); history := history cfg |} /\
  forwarded (trace (process env req Demo.th5))
  = [{| to := None; from := None; nonce := Some 5;
        gasLimit := Some 2000000%Z; gasPrice := Some 1000000000%Z;
        data := None; value := None; chainId := None |}] /\
  forwarded (trace (process env (Demo.req 0 1) Demo.th5))
  = [{| to := to (overrides Demo.move);
        from := from (overrides Demo.move); nonce := Some 5;
        gasLimit := gasLimit (overrides Demo.move);
        gasPrice := gasPrice (overrides Demo.move);
        data := data (overrides Demo.move);
        value := value (overrides Demo.move);
        chainId := chainId (overrides Demo.move) |}].
Proof.
  apply (C10_default_overrides (constructor (Demo.constructed_at 1000) 5)
           (type Demo.move) "a1" (contract Demo.move) (args Demo.move) None
           Demo.env_ok Demo.th5 5
           Demo.move 0 1).
  apply demo_reaches_submission. reflexivity.
Defined.

(** Two requests from nonce 5, both acknowledged, the first reverted: the
    transactions carry nonces 5 and 6, all four futures are resolved, and the
    nonce ends at 7. *)
Example two_requests :
  let d := drain Demo.th5 [(Demo.req 0 1, Demo.env_reverted);
                           (Demo.req 2 3, Demo.env_ok)] in
  submitted_nonces (snd d) = [5; 6] /\
  settles (snd d)
  = [(0%nat, FulfilResponse Demo.ack); (1%nat, FulfilReceipt Demo.reverted);
     (2%nat, FulfilResponse Demo.ack); (3%nat, FulfilReceipt Demo.mined)] /\
  this_nonce (fst d) = 7.
Proof.
  split; [vm_compute; reflexivity|].
  split; vm_compute; reflexivity.
Qed.

#[local] Existing Instance Demo.ethers.

Lemma demo_reaches_gate : reaches_gate Demo.env_denied Demo.th5 5.
Proof.
  split.
  - exists (1 # 1)%Q. split; [reflexivity|].
    intro Hlt. vm_compute in Hlt. discriminate.
  - reflexivity.
Defined.

Lemma gate_denied_witness :
  let res := process Demo.env_denied (Demo.req 0 1) Demo.th5 in
  settles (trace res) = [(0%nat, RejectWith (Error "denied"))] /\
  forwarded (trace res) = [] /\
  console_errors (trace res) = [Error "denied"] /\
  this_nonce (final res) = 5%Z /\
  this_lastTransaction (final res) = this_lastTransaction Demo.th5 /\
  outcome res <> Suspended.
Proof.
  apply (gate_denied Demo.env_denied Demo.move 0 1 Demo.th5 5
           (Error "denied")).
  - exact demo_reaches_gate.
  - reflexivity.
Defined.

Lemma forwarded_only_after_prechecks_witness :
  exists n,
    reaches_submission Demo.env_ok Demo.th5 n /\
    forwarded (trace (process Demo.env_ok (Demo.req 0 1) Demo.th5))
    = [spread_with_nonce (overrides Demo.move) n].
Proof.
  apply (forwarded_only_after_prechecks Demo.env_ok Demo.move 0 1 Demo.th5).
  assert (E : forwarded
                (trace (process Demo.env_ok (wired 0 1 Demo.move) Demo.th5))
              = [spread_with_nonce (overrides Demo.move) 5])
    by (vm_compute; reflexivity).
  cbv zeta. rewrite E. discriminate.
Defined.

Lemma receipt_wait_fails_witness :
  let env := Demo.env_receipt_down in
  let res := process env (Demo.req 0 1) Demo.th5 in
  settles (trace res)
  = [(0%nat, FulfilResponse Demo.ack);
     (1%nat, RejectWith (Error "network down"))] /\
  console_errors (trace res) = [Error "network down"] /\
  this_nonce (final res) = (5 + 1)%Z /\
  this_lastTransaction (final res) = Date_now env AtSubmitted /\
  outcome res <> Suspended.
Proof.
  apply (receipt_wait_fails Demo.env_receipt_down Demo.move 0 1 Demo.th5 5
           Demo.ack (Error "network down")).
  - apply demo_reaches_submission. reflexivity.
  - exact demo_safe_5.
  - split; reflexivity.
  - reflexivity.
  - discriminate.
Defined.

Lemma confirmed_transaction_witness :
  let env := Demo.env_ok in
  let res := process env (Demo.req 0 1) Demo.th5 in
  settles (trace res)
  = [(0%nat, FulfilResponse Demo.ack); (1%nat, FulfilReceipt Demo.mined)] /\
  console_errors (trace res) = [] /\
  this_nonce (final res) = (5 + 1)%Z /\
  exists rec,
    records (trace res) = [rec] /\
    tx_hash rec = Some (hash Demo.ack) /\
    wait_submit rec
    = Some (Date_now env AtSubmitted - Date_now env AtCalled)%Z /\
    wait_confirm rec
    = Some (Date_now env AtConfirmed - Date_now env AtCalled)%Z /\
    error rec = None /\ wait_error rec = None /\ parsed_error rec = None.
Proof.
  apply (confirmed_transaction Demo.env_ok Demo.move 0 1 Demo.th5 5 Demo.ack
           Demo.mined).
  - apply demo_reaches_submission. reflexivity.
  - exact demo_safe_5.
  - split; reflexivity.
  - reflexivity.
  - reflexivity.
  - discriminate.
  - discriminate.
  - discriminate.
  - discriminate.
Defined.

Lemma record_fields_consistent_witness :
  let res := process Demo.env_low (Demo.req 0 1) Demo.th5 in
  let rec :=
    assemble (Demo.req 0 1) (Date_now Demo.env_low AtExecCalled)
      (final_locals res) (eth_getRpcEndpoint Demo.env_low)
      (eth_getAddress Demo.env_low) in
  (wait_confirm rec <> None -> wait_submit rec <> None) /\
  (wait_submit rec <> None -> tx_hash rec <> None) /\
  (error rec = None <-> wait_error rec = None) /\
  (parsed_error rec <> None -> error rec <> None) /\
  (tx_hash rec = None <->
   forall ack, ~ In (FulfilResponse ack) (settlements 0 (trace res))).
Proof.
  apply (record_fields_consistent Demo.env_low Demo.move 0 1 Demo.th5).
  assert (E : records
                (trace (process Demo.env_low (wired 0 1 Demo.move) Demo.th5))
              = [assemble (Demo.req 0 1) (Date_now Demo.env_low AtExecCalled)
                   (final_locals
                      (process Demo.env_low (Demo.req 0 1) Demo.th5))
                   (eth_getRpcEndpoint Demo.env_low)
                   (eth_getAddress Demo.env_low)])
    by (vm_compute; reflexivity).
  rewrite E. left. reflexivity.
Defined.

Lemma notifies_only_low_balance_witness :
  notifications (trace (process Demo.env_ok (Demo.req 0 1) Demo.th5)) = 0%nat.
Proof.
  apply (notifies_only_low_balance Demo.env_ok Demo.move 0 1 Demo.th5).
  intros (b & Hb & Hlt). injection Hb as <-.
  vm_compute in Hlt. discriminate.
Defined.

Lemma stuck_request_blocks_queue_witness :
  let res := process Demo.env_hung (Demo.req 0 1) Demo.th5 in
  exists cfg1,
    steps
      {| this := Demo.th5; concurrency := 1; waiting := [Demo.req 2 3];
         running := [start (Demo.req 0 1)]; allocated := 4; history := [] |}
      cfg1 /\
    history cfg1 = ([] ++ trace res)%list /\
    forall cfg2, steps cfg1 cfg2 ->
      running cfg2 = running cfg1 /\
      this cfg2 = this cfg1 /\
      history cfg2 = history cfg1 /\
      exists added, waiting cfg2 = ([Demo.req 2 3] ++ added)%list.
Proof.
  apply (stuck_request_blocks_queue Demo.env_hung (Demo.req 0 1)
           [Demo.req 2 3] Demo.th5 4%nat []).
  vm_compute. reflexivity.
Defined.

Lemma responsive_batch_completes_witness :
  let d := drain Demo.th5 Demo.jobs in
  steps
    {| this := Demo.th5; concurrency := 1;
       waiting := [Demo.req 2 3; Demo.req 4 5];
       running := [start (Demo.req 0 1)]; allocated := 6; history := [] |}
    {| this := fst d; concurrency := 1; waiting := [];
       running := []; allocated := 6; history := [] ++ snd d |} /\
  (forall p q r env', In (wired p q r, env') Demo.jobs ->
                      settlements p (snd d) <> []).
Proof.
  apply (responsive_batch_completes
           [(Demo.req 2 3, Demo.env_low); (Demo.req 4 5, Demo.env_reverted)]
           (Demo.req 0 1) Demo.env_ok Demo.th5 6%nat []).
  repeat constructor; cbn [snd]; apply demo_responsive.
Defined.

Lemma settles_own_futures_in_order_witness :
  let res := process Demo.env_reverted (Demo.req 0 1) Demo.th5 in
  (forall p' s, In (p', s) (settles (trace res)) -> p' = 0%nat \/ p' = 1%nat) /\
  (settlements 1 (trace res) <> [] ->
   exists ack others,
     settles (trace res) = (0%nat, FulfilResponse ack) :: others).
Proof.
  apply (settles_own_futures_in_order Demo.env_reverted Demo.move 0 1
           Demo.th5).
  discriminate.
Defined.

Lemma suppressed_only_by_true_witness :
  let env := Demo.env_ok in
  records (trace (process env (Demo.req 0 1) Demo.th5)) = [] <->
  localStorage_getItem env (optout_key (eth_getAddress env)) = Some "true".
Proof.
  apply (suppressed_only_by_true Demo.env_ok Demo.move 0 1 Demo.th5).
  apply demo_responsive.
Defined.

Lemma demo_both_done :
  steps (constructor (Demo.constructed_at 1000) 5) Demo.both_done.
Proof.
  eapply steps_trans;
    [|apply (worker_calls_back Demo.env_reverted (Demo.req 2 3) []
               (final (process Demo.env_ok (Demo.req 0 1) Demo.th5)) 1 4
               ([] ++ trace (process Demo.env_ok (Demo.req 0 1) Demo.th5)
                   ++ called_back
                        (outcome (process Demo.env_ok (Demo.req 0 1)
                                    Demo.th5))));
      vm_compute; discriminate].
  eapply steps_trans;
    [|apply (worker_proceeds Demo.env_ok (Demo.req 0 1) (Demo.req 2 3)
               [] Demo.th5 1 4 []);
      vm_compute; discriminate].
  change
    (steps (constructor (Demo.constructed_at 1000) 5)
       (Demo.request_made
          (Demo.request_made (constructor (Demo.constructed_at 1000) 5)))).
  unfold Demo.request_made.
  eapply steps_step; [apply steps_one|]; apply step_makeRequest.
Defined.

Lemma idle_queue_is_empty_witness :
  settlements (submitted_of 1) (history Demo.both_done)
  = [FulfilResponse Demo.ack] /\
  waiting Demo.both_done = [].
Proof.
  split; [vm_compute; reflexivity|].
  apply (idle_queue_is_empty (Demo.constructed_at 1000) 5).
  - exact demo_both_done.
  - reflexivity.
Defined.

Lemma rawUpgradesInfo_shape_witness :
  Forall2 (Forall2 (fun r u => rawUpgradeToUpgrade r = Returns u))
    Demo.raw_table [Demo.branch; []] /\
  map (@length Upgrade) [Demo.branch; []]
  = map (@length RawUpgrade) Demo.raw_table.
Proof.
  apply (rawUpgradesInfo_shape Demo.raw_table [Demo.branch; []]).
  vm_compute. reflexivity.
Defined.

(** A raw upgrade with four entries: reading the fifth throws. *)
Example short_upgrade :
  rawUpgradeToUpgrade [120; 120; 100; 100]%Z = Throws TypeError_undefined.
Proof. vm_compute. reflexivity. Qed.
